(** * Conversation orchestration of autogen_node

    A shallow embedding of the orchestration core of autogen_node:
    messages, agents with their conversation history, the two-party
    exchange ([send], [initiateChat]), the termination predicate, the group
    chat engine and the LLM-backed [AssistantAgent.generateReply].

    The files [src/core/BaseAgent.ts] and [src/core/GroupChat.ts] are
    imported by the repository (by its tests, its examples and
    [src/index.ts]) but are not part of the sources at hand; the
    definitions standing for them are marked "Modelled from the spec" and
    follow the specification's words together with the repository's tests
    ([src/__tests__/BaseAgent.test.ts]).  [AssistantAgent.generateReply] is
    translated from [src/agents/AssistantAgent.ts]. *)

From Stdlib Require Import String Ascii QArith.
From stdpp Require Import base list gmap strings.


(* ------------------------------------------------------------------ *)
(** ** Strings: lower-casing and substring search *)

Module Str.

(** [String.prototype.toLowerCase] restricted to the byte strings used
    here: 'A'..'Z' are mapped to 'a'..'z', every other character is kept. *)
Definition lower_char (c : ascii) : ascii :=
  let n := nat_of_ascii c in
  if ((65 <=? n) && (n <=? 90))%nat then ascii_of_nat (n + 32)%nat else c.

Fixpoint toLowerCase (s : string) : string :=
  match s with
  | EmptyString => EmptyString
  | String c t => String (lower_char c) (toLowerCase t)
  end.

(** [s.startsWith(p)] *)
Fixpoint startsWith (p s : string) : bool :=
  match p, s with
  | EmptyString, _ => true
  | String _ _, EmptyString => false
  | String c p', String d s' => Ascii.eqb c d && startsWith p' s'
  end.

(** [s.includes(p)]: [p] occurs at some position of [s]. *)
Fixpoint includes (s p : string) : bool :=
  startsWith p s ||
  match s with
  | EmptyString => false
  | String _ t => includes t p
  end.

End Str.

(* ------------------------------------------------------------------ *)
(** ** Messages ([src/core/IAgent.ts], interface [IMessage]) *)

Inductive role := system | user | assistant | function.

Record FunctionCall := mkFunctionCall { fc_name : string; fc_arguments : string }.

Record IMessage := mkMessage {
  role_of : role;
  content : string;
  name : option string;
  functionCall : option FunctionCall
}.

Definition msg (r : role) (c : string) (n : option string) : IMessage :=
  mkMessage r c n None.

(** Modelled from the spec: [BaseAgent.isTerminationMessage] (missing
    [src/core/BaseAgent.ts]).  "A message signals termination if its
    content, case-insensitively, contains the literal token "terminate" or
    the literal token "goodbye"." *)
Definition isTerminationMessage (m : IMessage) : bool :=
  let c := Str.toLowerCase (content m) in
  Str.includes c "terminate"%string || Str.includes c "goodbye"%string.

(* ------------------------------------------------------------------ *)
(** ** Thrown values and effectful results *)

(** A value thrown by JavaScript code: an [Error] object (its [name], such
    as "Error", "AbortError" or "TypeError", and its [message]) or any other
    thrown value. *)
Inductive exn :=
| JsError (errname : string) (message : string)
| NonError (value : string).

(** The outcome of a synchronous call that may throw. *)
Inductive result (A : Type) :=
| Ok (a : A)
| Throw (e : exn).
Arguments Ok {A} a.
Arguments Throw {A} e.

(** The outcome of an awaited call on mutable objects [S]: the promise
    resolves with a value, or rejects with an error; in both cases the
    objects keep the mutations made before that point. *)
Inductive outcome (S A : Type) :=
| Done (s : S) (a : A)
| Failed (e : exn) (s : S).
Arguments Done {S A} s a.
Arguments Failed {S A} e s.

(* ------------------------------------------------------------------ *)
(** ** Agents *)

(** Modelled from the spec: the fields of [BaseAgent] (missing
    [src/core/BaseAgent.ts]): its name, its optional system prompt and its
    conversation history. *)
Record BaseAgent := mkAgent {
  agent_name : string;
  systemMessage : option string;
  conversationHistory : list IMessage
}.

Definition set_history (a : BaseAgent) (h : list IMessage) : BaseAgent :=
  mkAgent (agent_name a) (systemMessage a) h.

(** Modelled from the spec: the constructor of [BaseAgent]; the history
    starts with the system message when one is configured. *)
Definition initialHistory (sm : option string) : list IMessage :=
  match sm with
  | Some s => [msg system s None]
  | None => []
  end.

Definition newAgent (nm : string) (sm : option string) : BaseAgent :=
  mkAgent nm sm (initialHistory sm).

Definition getName (a : BaseAgent) : string := agent_name a.

(** Modelled from the spec: [addToHistory(message)] appends one message. *)
Definition addToHistory (a : BaseAgent) (m : IMessage) : BaseAgent :=
  set_history a (conversationHistory a ++ [m]).

(** Modelled from the spec: [clearHistory()] resets the history to empty,
    re-inserting the leading system message if one is configured. *)
Definition clearHistory (a : BaseAgent) : BaseAgent :=
  set_history a (initialHistory (systemMessage a)).

(** The argument of [send] and [initiateChat]: a plain string or a full
    message. *)
Inductive MessageInput :=
| StrMsg (s : string)
| FullMsg (m : IMessage).

Definition normalize (m : MessageInput) : IMessage :=
  match m with
  | StrMsg s => msg user s None
  | FullMsg m' => m'
  end.

(* ------------------------------------------------------------------ *)
(** ** [AssistantAgent.generateReply] ([src/agents/AssistantAgent.ts]) *)

(** [llmProvider.generateCompletion(messages, cancellationToken)]: the
    provider (with the cancellation signal it is given) resolves with the
    completion text or rejects with a thrown value. *)
Definition provider := list IMessage -> result string.

(** Lines 106-131: the completion becomes an assistant message named after
    the agent, which is added to the agent's own history and returned; an
    [Error] is rethrown as [new Error(`Failed to generate reply: ...`)], any
    other thrown value is rethrown as it is. *)
Definition assistant_generateReply (llmProvider : provider) (self : BaseAgent)
    (messages : list IMessage) : outcome BaseAgent IMessage :=
  match llmProvider messages with
  | Ok c =>
      let reply := msg assistant c (Some (agent_name self)) in
      Done (addToHistory self reply) reply
  | Throw (JsError _ m) =>
      Failed (JsError "Error" ("Failed to generate reply: " ++ m)%string) self
  | Throw e => Failed e self
  end.

(** [MockAgent.generateReply] of the repository's tests: a fixed reply
    named after the agent, no state change. *)
Definition mock_generateReply (mockReply : string) (self : BaseAgent)
    (messages : list IMessage) : outcome BaseAgent IMessage :=
  Done self (msg assistant mockReply (Some (agent_name self))).

(* ------------------------------------------------------------------ *)
(** ** The exchange protocol and the group chat engine *)

Section Orchestration.

(** [generateReply(messages, cancellationToken)], abstract in [BaseAgent]:
    each concrete agent turns a history into a reply, possibly updating
    its own state ([AssistantAgent] adds the reply to its history), or
    rejects. *)
Variable generateReply : BaseAgent -> list IMessage -> outcome BaseAgent IMessage.

(** Modelled from the spec: [send(message, recipient, requestReply)]
    (missing [src/core/BaseAgent.ts]).  The normalized message is appended
    to the sender's history; without [requestReply] nothing else happens
    and no reply is returned; otherwise the recipient's [generateReply] is
    awaited on its own history plus the new message, and the reply is also
    appended to the sender's history.  The state is (sender, recipient). *)
Definition send (self : BaseAgent) (message : MessageInput) (recipient : BaseAgent)
    (requestReply : bool) : outcome (BaseAgent * BaseAgent) (option IMessage) :=
  let m := normalize message in
  let self1 := addToHistory self m in
  if requestReply then
    match generateReply recipient (conversationHistory recipient ++ [m]) with
    | Failed e recipient' => Failed e (self1, recipient')
    | Done recipient' reply => Done (addToHistory self1 reply, recipient') (Some reply)
    end
  else Done (self1, recipient) None.

Definition orient (flipped : bool) (snd rcv : BaseAgent) : BaseAgent * BaseAgent :=
  if flipped then (rcv, snd) else (snd, rcv).

(** Modelled from the spec: the loop of [initiateChat].  Each round the
    current sender sends the current message to the current receiver and
    requests a reply; the reply is recorded, ends the chat if it is a
    termination message, and otherwise is sent back with the roles
    swapped.  [flipped] tells whether the current sender is the
    recipient of [initiateChat]; the state is always returned as
    (initiator, recipient). *)
Fixpoint chat_loop (rounds : nat) (flipped : bool) (current : MessageInput)
    (snd rcv : BaseAgent) (chatHistory : list IMessage)
    : outcome (BaseAgent * BaseAgent) (list IMessage) :=
  match rounds with
  | O => Done (orient flipped snd rcv) chatHistory
  | S r =>
      match send snd current rcv true with
      | Failed e (snd', rcv') => Failed e (orient flipped snd' rcv')
      | Done (snd', rcv') None => Done (orient flipped snd' rcv') chatHistory
      | Done (snd', rcv') (Some reply) =>
          let chatHistory' := chatHistory ++ [reply] in
          if isTerminationMessage reply
          then Done (orient flipped snd' rcv') chatHistory'
          else chat_loop r (negb flipped) (FullMsg reply) rcv' snd' chatHistory'
      end
  end.

(** Modelled from the spec: [initiateChat(recipient, initialMessage,
    maxRounds)] returns the messages exchanged, one reply per round; the
    seed message is not part of the returned sequence (the repository's
    test "should respect max rounds limit" requires at most [maxRounds]
    messages in it). *)
Definition initiateChat (self recipient : BaseAgent) (initialMessage : MessageInput)
    (maxRounds : nat) : outcome (BaseAgent * BaseAgent) (list IMessage) :=
  chat_loop maxRounds false initialMessage self recipient [].

(** Modelled from the spec: the state of a [GroupChat] (missing
    [src/core/GroupChat.ts]). *)
Record GroupChat := mkGroupChat {
  agents : list BaseAgent;
  messages : list IMessage;
  maxRound : nat;
  currentRound : nat;
  adminName : option string
}.

Record GroupChatConfig := mkGroupChatConfig {
  cfg_agents : list BaseAgent;
  cfg_maxRound : option nat;
  cfg_adminName : option string
}.

(** Modelled from the spec: the constructor rejects fewer than 2 agents
    with a configuration error (message as in the repository's test);
    the round budget defaults to 10. *)
Definition newGroupChat (config : GroupChatConfig) : result GroupChat :=
  if length (cfg_agents config) <? 2
  then Throw (JsError "ConfigurationError" "GroupChat requires at least 2 agents")%string
  else Ok (mkGroupChat (cfg_agents config) []
             (default 10 (cfg_maxRound config)) 0 (cfg_adminName config)).

Definition set_messages (g : GroupChat) (ms : list IMessage) : GroupChat :=
  mkGroupChat (agents g) ms (maxRound g) (currentRound g) (adminName g).

Definition set_agents (g : GroupChat) (ags : list BaseAgent) : GroupChat :=
  mkGroupChat ags (messages g) (maxRound g) (currentRound g) (adminName g).

Definition set_round (g : GroupChat) (r : nat) : GroupChat :=
  mkGroupChat (agents g) (messages g) (maxRound g) r (adminName g).

(** Modelled from the spec: [addMessage(message)]. *)
Definition addMessage (g : GroupChat) (m : IMessage) : GroupChat :=
  set_messages g (messages g ++ [m]).

(** Modelled from the spec: [reset()]. *)
Definition reset (g : GroupChat) : GroupChat :=
  set_round (set_messages g []) 0.

Definition tag_name (m : IMessage) (n : string) : IMessage :=
  mkMessage (role_of m) (content m) (Some n) (functionCall m).

(** Modelled from the spec: one round of [run].  The speaker is
    [agents[currentRound mod N]] (strict round-robin from index 0); it
    replies to the whole transcript; the reply, tagged with the speaker's
    name, is appended.  Returns whether the reply is a termination
    message. *)
Definition group_step (g : GroupChat) : outcome GroupChat bool :=
  let i := currentRound g mod length (agents g) in
  match agents g !! i with
  | None => Done g true
  | Some speaker =>
      match generateReply speaker (messages g) with
      | Failed e speaker' => Failed e (set_agents g (<[i := speaker']> (agents g)))
      | Done speaker' reply =>
          let reply' := tag_name reply (agent_name speaker) in
          let g' := set_round
                      (set_messages (set_agents g (<[i := speaker']> (agents g)))
                                    (messages g ++ [reply']))
                      (S (currentRound g)) in
          Done g' (isTerminationMessage reply')
      end
  end.

(** The [while (currentRound < maxRound)] loop of [run]; [fuel] bounds the
    number of iterations ([maxRound] suffices since the counter starts at
    0 and grows by one per round). *)
Fixpoint run_loop (fuel : nat) (g : GroupChat) : outcome GroupChat unit :=
  match fuel with
  | O => Done g tt
  | S f =>
      if currentRound g <? maxRound g then
        match group_step g with
        | Failed e g' => Failed e g'
        | Done g' true => Done g' tt
        | Done g' false => run_loop f g'
        end
      else Done g tt
  end.

(** Modelled from the spec: [run(initialMessage)] appends the seed message
    (role "user") and runs the rounds; it returns the transcript. *)
Definition run (g : GroupChat) (initialMessage : string)
    : outcome GroupChat (list IMessage) :=
  let g0 := set_round (addMessage g (msg user initialMessage (adminName g))) 0 in
  match run_loop (maxRound g) g0 with
  | Done g' _ => Done g' (messages g')
  | Failed e g' => Failed e g'
  end.

(** The configuration of [chat_loop] at the start of a round: the rounds
    left, the orientation, the message to send, the current sender and
    receiver, and the replies so far. *)
Record ChatState := mkChatState {
  cs_rounds : nat;
  cs_flipped : bool;
  cs_current : MessageInput;
  cs_snd : BaseAgent;
  cs_rcv : BaseAgent;
  cs_acc : list IMessage
}.

Definition chat_run (c : ChatState) : outcome (BaseAgent * BaseAgent) (list IMessage) :=
  chat_loop (cs_rounds c) (cs_flipped c) (cs_current c) (cs_snd c) (cs_rcv c) (cs_acc c).

(** A round of [chat_loop] after which the chat goes on: the reply is
    received and is not a termination message. *)
Inductive chat_continues : ChatState -> ChatState -> Prop :=
| chat_continues_intro r flipped current snd rcv acc snd' rcv' reply :
    send snd current rcv true = Done (snd', rcv') (Some reply) ->
    isTerminationMessage reply = false ->
    chat_continues (mkChatState (S r) flipped current snd rcv acc)
                   (mkChatState r (negb flipped) (FullMsg reply) rcv' snd' (acc ++ [reply])).

(** An iteration of [run_loop] (with its fuel) after which the loop goes
    on: the round is within budget and its reply does not terminate. *)
Inductive run_continues : nat * GroupChat -> nat * GroupChat -> Prop :=
| run_continues_intro f g g' :
    (currentRound g <? maxRound g) = true ->
    group_step g = Done g' false ->
    run_continues (S f, g) (f, g').

End Orchestration.

(* ------------------------------------------------------------------ *)
(** ** Accessors returning arrays, with the heap made explicit *)

Module Heap.

(** Array objects live in a heap; an agent or a group chat refers to its
    internal arrays by location.  A value stored in an array is a message
    or a reference to an agent object. *)
Definition loc := positive.

Inductive value :=
| VMsg (m : IMessage)
| VRef (r : loc).

Abbreviation heap := (gmap loc (list value)).

Record AgentObj := mkAgentObj { conversationHistory_loc : loc }.

Record GroupChatObj := mkGroupChatObj { agents_loc : loc; messages_loc : loc }.

(** [[...arr]]: a new array object holding the elements of [arr]. *)
Definition copy_array (h : heap) (l : loc) : option (heap * loc) :=
  match h !! l with
  | Some xs => let l' := fresh (dom h) in Some (<[l' := xs]> h, l')
  | None => None
  end.

(** Modelled from the spec: the three accessors return "a defensive
    copy", i.e. a new array with the elements of the internal one. *)
Definition getConversationHistory (h : heap) (a : AgentObj) : option (heap * loc) :=
  copy_array h (conversationHistory_loc a).

Definition getMessages (h : heap) (g : GroupChatObj) : option (heap * loc) :=
  copy_array h (messages_loc g).

Definition getAgents (h : heap) (g : GroupChatObj) : option (heap * loc) :=
  copy_array h (agents_loc g).

(** A caller mutating the array object at [l] in an arbitrary way
    ([push], [pop], [splice], index assignment, ...). *)
Definition mutate (h : heap) (l : loc) (f : list value -> list value) : heap :=
  match h !! l with
  | Some xs => <[l := f xs]> h
  | None => h
  end.

End Heap.

(* ------------------------------------------------------------------ *)
(** ** JavaScript numbers and the [||] and [??] operators *)

(** A JavaScript number of the configuration (temperature, token limit):
    a finite value, kept as a rational, or [NaN].  Infinities do not
    occur in these configurations and are left out. *)
Inductive jsnum :=
| JNum (q : Q)
| JNaN.

(** [0], [-0] and [NaN] are the falsy numbers. *)
Definition truthy (n : jsnum) : bool :=
  match n with
  | JNum q => negb (Qeq_bool q 0)
  | JNaN => false
  end.

(** [x || d] on an optional number. *)
Definition num_or (x : option jsnum) (d : jsnum) : jsnum :=
  match x with
  | Some n => if truthy n then n else d
  | None => d
  end.

(** [x ?? d] on an optional number. *)
Definition num_nullish (x : option jsnum) (d : jsnum) : jsnum :=
  match x with
  | Some n => n
  | None => d
  end.

(** [x || d] on an optional string: [undefined] and [""] are falsy. *)
Definition str_or (x : option string) (d : string) : string :=
  match x with
  | Some s => if String.eqb s "" then d else s
  | None => d
  end.

(** [!x] on an optional string. *)
Definition str_falsy (x : option string) : bool :=
  match x with
  | Some s => String.eqb s ""
  | None => true
  end.

(* ------------------------------------------------------------------ *)
(** ** LLM providers ([src/providers/]) *)

Module LLM.

(** [LLMProviderConfig] ([src/unnamed/part_001]). *)
Record LLMProviderConfig := mkConfig {
  model : string;
  temperature : option jsnum;
  maxTokens : option jsnum;
  apiKey : option string;
  baseURL : option string
}.

(** [Partial<LLMProviderConfig>]: for each field, the key is absent
    ([None]) or present with a value of the field's type. *)
Record PartialConfig := mkPartial {
  p_model : option string;
  p_temperature : option (option jsnum);
  p_maxTokens : option (option jsnum);
  p_apiKey : option (option string);
  p_baseURL : option (option string)
}.

Definition override {A} (new : option A) (old : A) : A :=
  match new with
  | Some v => v
  | None => old
  end.

(** [{ ...this.config, ...config }]. *)
Definition merge (c : LLMProviderConfig) (p : PartialConfig) : LLMProviderConfig :=
  mkConfig (override (p_model p) (model c))
           (override (p_temperature p) (temperature c))
           (override (p_maxTokens p) (maxTokens c))
           (override (p_apiKey p) (apiKey c))
           (override (p_baseURL p) (baseURL c)).

Inductive ProviderKind := OpenAIKind | OpenRouterKind | OllamaKind.

(** The options given to [new OpenAI({...})]. *)
Record ClientOptions := mkClientOptions {
  client_apiKey : string;
  client_baseURL : option string;
  client_defaultHeaders : list (string * string)
}.

(** A provider object: its class, its [config] and its [client]. *)
Record LLMProvider := mkProvider {
  kind : ProviderKind;
  config : LLMProviderConfig;
  client : ClientOptions
}.

(** [OpenAIProvider] constructor ([src/providers/OpenAIProvider.ts], lines
    12-21). *)
Definition newOpenAIProvider (c : LLMProviderConfig) : result LLMProvider :=
  if str_falsy (apiKey c)
  then Throw (JsError "Error" "OpenAI API key is required")
  else Ok (mkProvider OpenAIKind c (mkClientOptions (default "" (apiKey c)) None [])).

(** [OpenRouterProvider] constructor (lines 66-82 of the same file). *)
Definition newOpenRouterProvider (c : LLMProviderConfig) : result LLMProvider :=
  if str_falsy (apiKey c)
  then Throw (JsError "Error" "OpenRouter API key is required")
  else Ok (mkProvider OpenRouterKind c
             (mkClientOptions (default "" (apiKey c))
                (Some (str_or (baseURL c) "https://openrouter.ai/api/v1"))
                [("HTTP-Referer", "https://github.com/ojama/autogen_node");
                 ("X-Title", "AutoGen Node.js")])).

(** [OllamaProvider] constructor ([src/providers/OllamaProvider.ts], lines
    13-22). *)
Definition newOllamaProvider (c : LLMProviderConfig) : LLMProvider :=
  mkProvider OllamaKind c
    (mkClientOptions (str_or (apiKey c) "ollama")
       (Some (str_or (baseURL c) "http://localhost:11434/v1")) []).

(** One entry of the [messages] of a chat completion request. *)
Record WireMessage := mkWire {
  w_role : role;
  w_content : string;
  w_name : option string
}.

(** [messages.map(msg => ({ role, content, ...(msg.name && { name }) }))]:
    the role is passed through (the [as] cast does not change it), the
    name only when it is a non-empty string; [functionCall] is not sent. *)
Definition toWire (m : IMessage) : WireMessage :=
  mkWire (role_of m) (content m)
    (if str_falsy (name m) then None else name m).

(** The body of [client.chat.completions.create]; [max_tokens] is [None]
    when the key is absent. *)
Record ChatRequest := mkRequest {
  req_model : string;
  req_messages : list WireMessage;
  req_temperature : jsnum;
  req_max_tokens : option jsnum
}.

Definition buildRequest (p : LLMProvider) (ms : list IMessage) : ChatRequest :=
  let c := config p in
  mkRequest (model c) (map toWire ms) (num_nullish (temperature c) (JNum 0))
    (match kind p with
     | OllamaKind =>
         (* ...(this.config.maxTokens && { max_tokens: this.config.maxTokens }) *)
         match maxTokens c with
         | Some n => if truthy n then Some n else None
         | None => None
         end
     | _ => Some (num_or (maxTokens c) (JNum 1000))
     end).

(** The response: its [choices], each with an optional [message] whose
    [content] is a string or [null]. *)
Definition ChatResponse := list (option (option string)).

(** [response.choices[0]?.message?.content || ''] *)
Definition firstContent (r : ChatResponse) : string :=
  match r with
  | Some (Some s) :: _ => s
  | _ => ""
  end.

(** [generateCompletion(messages, cancellationToken)] of the three
    providers: [create] is the OpenAI client's call (with the abort
    signal), which resolves with a response or rejects. *)
Definition generateCompletion
    (create : ClientOptions -> ChatRequest -> result ChatResponse)
    (p : LLMProvider) (ms : list IMessage) : result string :=
  match create (client p) (buildRequest p ms) with
  | Ok r => Ok (firstContent r)
  | Throw e => Throw e
  end.

Definition getProviderName (p : LLMProvider) : string :=
  match kind p with
  | OpenAIKind => "OpenAI"
  | OpenRouterKind => "OpenRouter"
  | OllamaKind => "Ollama"
  end.

(** [{ ...x, ...y }] on two partial configurations: the keys of [y] win. *)
Definition spread (x y : PartialConfig) : PartialConfig :=
  let pick {A} (a b : option A) := match b with Some v => Some v | None => a end in
  mkPartial (pick (p_model x) (p_model y)) (pick (p_temperature x) (p_temperature y))
    (pick (p_maxTokens x) (p_maxTokens y)) (pick (p_apiKey x) (p_apiKey y))
    (pick (p_baseURL x) (p_baseURL y)).

(** [updateConfig(config)] *)
Definition updateConfig (p : LLMProvider) (pc : PartialConfig) : LLMProvider :=
  mkProvider (kind p) (merge (config p) pc) (client p).

End LLM.

(* ------------------------------------------------------------------ *)
(** ** [AssistantAgent] ([src/agents/AssistantAgent.ts]) *)

Module Assistant.
Import LLM.

(** [AssistantAgentConfig]; [provider] is the string given at run time
    ([LLMProviderType] at the type level). *)
Record AssistantAgentConfig := mkAssistantConfig {
  cfg_name : string;
  cfg_systemMessage : option string;
  cfg_provider : option string;
  cfg_apiKey : option string;
  cfg_model : option string;
  cfg_temperature : option jsnum;
  cfg_maxTokens : option jsnum;
  cfg_baseURL : option string
}.

Record AssistantAgent := mkAssistant {
  base : BaseAgent;
  llmProvider : LLMProvider;
  agent_model : string;
  agent_temperature : jsnum;
  agent_maxTokens : jsnum
}.

(** [getDefaultModel] (lines 62-73). *)
Definition getDefaultModel (provider : string) : string :=
  if String.eqb provider "openai" then "gpt-3.5-turbo"
  else if String.eqb provider "openrouter" then "openai/gpt-3.5-turbo"
  else if String.eqb provider "ollama" then "llama2"
  else "gpt-3.5-turbo".

(** [createProvider] (lines 78-101). *)
Definition createProvider (type : string) (mdl : string) (temp maxT : jsnum)
    (key url : option string) : result LLMProvider :=
  let c := mkConfig mdl (Some temp) (Some maxT) key url in
  if String.eqb type "openai" then newOpenAIProvider c
  else if String.eqb type "openrouter" then newOpenRouterProvider c
  else if String.eqb type "ollama" then Ok (newOllamaProvider c)
  else Throw (JsError "Error" ("Unsupported provider: " ++ type)%string).

(** The constructor (lines 42-57); [super(config)] is [newAgent]. *)
Definition newAssistantAgent (cfg : AssistantAgentConfig) : result AssistantAgent :=
  let b := newAgent (cfg_name cfg) (cfg_systemMessage cfg) in
  let providerType := str_or (cfg_provider cfg) "openai" in
  let mdl := str_or (cfg_model cfg) (getDefaultModel providerType) in
  let temp := num_nullish (cfg_temperature cfg) (JNum 0) in
  let maxT := num_or (cfg_maxTokens cfg) (JNum 1000) in
  match createProvider providerType mdl temp maxT (cfg_apiKey cfg) (cfg_baseURL cfg) with
  | Ok p => Ok (mkAssistant b p mdl temp maxT)
  | Throw e => Throw e
  end.

(** [generateReply] (lines 106-131) on the agent's own provider. *)
Definition generateReply (create : ClientOptions -> ChatRequest -> result ChatResponse)
    (a : AssistantAgent) (ms : list IMessage) : outcome AssistantAgent IMessage :=
  match assistant_generateReply (generateCompletion create (llmProvider a)) (base a) ms with
  | Done b' r => Done (mkAssistant b' (llmProvider a) (agent_model a)
                          (agent_temperature a) (agent_maxTokens a)) r
  | Failed e b' => Failed e (mkAssistant b' (llmProvider a) (agent_model a)
                               (agent_temperature a) (agent_maxTokens a))
  end.

Definition only_model (m : string) : PartialConfig := mkPartial (Some m) None None None None.
Definition only_temperature (t : jsnum) : PartialConfig :=
  mkPartial None (Some (Some t)) None None None.

(** [setModel] (lines 136-139). *)
Definition setModel (a : AssistantAgent) (m : string) : AssistantAgent :=
  mkAssistant (base a) (updateConfig (llmProvider a) (only_model m)) m
    (agent_temperature a) (agent_maxTokens a).

(** [setTemperature] (lines 144-147). *)
Definition setTemperature (a : AssistantAgent) (t : jsnum) : AssistantAgent :=
  mkAssistant (base a) (updateConfig (llmProvider a) (only_temperature t)) (agent_model a)
    t (agent_maxTokens a).

(** [getProviderName] (lines 152-154). *)
Definition getProviderName (a : AssistantAgent) : string :=
  LLM.getProviderName (llmProvider a).

End Assistant.

(* ------------------------------------------------------------------ *)
(** ** Fixtures of the repository's tests *)

Definition agent1 : BaseAgent := newAgent "agent1" None.
Definition agent2 : BaseAgent := newAgent "agent2" None.
Definition agent3 : BaseAgent := newAgent "agent3" None.

Fixpoint reply_for (replies : list (string * string)) (nm : string) : string :=
  match replies with
  | [] => "Mock reply"
  | (n, r) :: rest => if String.eqb n nm then r else reply_for rest nm
  end.

(** Several [MockAgent]s, each with its fixed reply (by agent name). *)
Definition mocks (replies : list (string * string)) (self : BaseAgent)
    (ms : list IMessage) : outcome BaseAgent IMessage :=
  mock_generateReply (reply_for replies (agent_name self)) self ms.

(** A provider whose request is aborted through the cancellation signal,
    and one whose request fails on the network with the same message. *)
Definition aborted_provider : provider := fun _ => Throw (JsError "AbortError" "aborted").
Definition network_provider : provider := fun _ => Throw (JsError "TypeError" "aborted").
Definition echo_provider : provider := fun _ => Ok "Hello".

(** A provider that throws a value that is not an [Error] object. *)
Definition string_provider : provider := fun _ => Throw (NonError "boom").

(** The group of the test "should rotate between agents", as built by
    [newGroupChat] with a round budget of 5. *)
Definition group3 : GroupChat := mkGroupChat [agent1; agent2; agent3] [] 5 0 None.

(** The replies of the test "should rotate between agents". *)
Definition rotate_replies : list (string * string) :=
  [("agent1", "Reply from agent1"); ("agent2", "Reply from agent2"); ("agent3", "TERMINATE")].

(* ================================================================== *)
(** * Properties *)

(** ** Strings *)

Module StrFacts.
Import Str.

Lemma startsWith_spec (p s : string) :
  startsWith p s = true <-> exists t, s = (p ++ t)%string.
Proof.
  revert s; induction p as [|c p IH]; intros s; simpl.
  - split; [intros _; now exists s | done].
  - destruct s as [|d s]; simpl.
    + split; [done|intros [t Ht]; discriminate].
    + rewrite andb_true_iff, Ascii.eqb_eq, IH.
      split.
      * intros [-> [t ->]]. now exists t.
      * intros [t Ht]. injection Ht as -> ->. split; [done|now exists t].
Qed.

Lemma includes_spec (s p : string) :
  includes s p = true <-> exists a b, s = (a ++ p ++ b)%string.
Proof.
  induction s as [|c s IH]; simpl; rewrite orb_true_iff, startsWith_spec.
  - split.
    + intros [[t Ht]|Hf]; [|discriminate]. exists EmptyString, t. exact Ht.
    + intros [a [b Hab]]. left. destruct a; [|discriminate].
      now exists b.
  - rewrite IH. split.
    + intros [[t Ht]|[a [b ->]]].
      * now exists EmptyString, t.
      * now exists (String c a), b.
    + intros [[|c' a] [b Hab]].
      * left. now exists b.
      * right. injection Hab as -> ->. now exists a, b.
Qed.

Lemma toLowerCase_app (a b : string) :
  toLowerCase (a ++ b) = (toLowerCase a ++ toLowerCase b)%string.
Proof. induction a as [|c a IH]; simpl; [done|now rewrite IH]. Qed.

Lemma toLowerCase_split (c x y : string) :
  toLowerCase c = (x ++ y)%string ->
  exists c1 c2, c = (c1 ++ c2)%string /\ toLowerCase c1 = x /\ toLowerCase c2 = y.
Proof.
  revert x; induction c as [|d c IH]; intros x H.
  - destruct x; [|discriminate]. simpl in H.
    exists EmptyString, EmptyString. simpl in *. auto.
  - destruct x as [|e x]; simpl in H.
    + exists EmptyString, (String d c). simpl. now rewrite H.
    + injection H as He Hc. destruct (IH x Hc) as [c1 [c2 [-> [H1 H2]]]].
      exists (String d c1), c2. simpl. now rewrite He, H1.
Qed.

(** A case-insensitive occurrence of a token in [s], through lower-casing. *)
Lemma includes_lower_spec (s tok : string) :
  toLowerCase tok = tok ->
  includes (toLowerCase s) tok = true <->
  exists p w t, s = (p ++ w ++ t)%string /\ toLowerCase w = tok.
Proof.
  intros Htok. rewrite includes_spec. split.
  - intros [a [b Hab]].
    destruct (toLowerCase_split _ _ _ Hab) as [p [r [-> [Hp Hr]]]].
    destruct (toLowerCase_split _ _ _ Hr) as [w [t [-> [Hw Ht]]]].
    now exists p, w, t.
  - intros [p [w [t [-> Hw]]]].
    exists (toLowerCase p), (toLowerCase t).
    now rewrite !toLowerCase_app, Hw.
Qed.

End StrFacts.

(** ** Termination detection *)

Example isTerminationMessage_test_upper :
  isTerminationMessage (msg assistant "The task is complete. TERMINATE" None) = true.
Proof. reflexivity. Qed.

Example isTerminationMessage_test_lower :
  isTerminationMessage (msg assistant "terminate the conversation" None) = true.
Proof. reflexivity. Qed.

Example isTerminationMessage_test_goodbye :
  isTerminationMessage (msg assistant "goodbye!" None) = true.
Proof. reflexivity. Qed.

Example isTerminationMessage_test_normal :
  isTerminationMessage (msg assistant "This is a normal message" None) = false.
Proof. reflexivity. Qed.

(** C1: a message is a termination message exactly when its content has a
    factor equal, up to case, to "terminate" or to "goodbye"; a content
    without any such factor is never a termination message. *)
Theorem isTerminationMessage_spec (m : IMessage) :
  (isTerminationMessage m = true <->
   exists p w s, content m = (p ++ w ++ s)%string /\
     (Str.toLowerCase w = "terminate"%string \/ Str.toLowerCase w = "goodbye"%string)) /\
  ((forall p w s, content m = (p ++ w ++ s)%string ->
      Str.toLowerCase w <> "terminate"%string /\ Str.toLowerCase w <> "goodbye"%string) ->
   isTerminationMessage m = false).
Proof.
  assert (Hiff : isTerminationMessage m = true <->
   exists p w s, content m = (p ++ w ++ s)%string /\
     (Str.toLowerCase w = "terminate"%string \/ Str.toLowerCase w = "goodbye"%string)).
  { unfold isTerminationMessage.
    rewrite orb_true_iff, !StrFacts.includes_lower_spec by reflexivity.
    split.
    - intros [[p [w [s [Hc Hw]]]]|[p [w [s [Hc Hw]]]]]; exists p, w, s; auto.
    - intros [p [w [s [Hc [Hw|Hw]]]]]; [left|right]; exists p, w, s; auto. }
  split; [exact Hiff|].
  intros Hnone. apply not_true_is_false. intros Ht.
  apply Hiff in Ht as [p [w [s [Hc Hw]]]].
  destruct (Hnone p w s Hc) as [H1 H2]. destruct Hw; contradiction.
Qed.

(** ** The two-party exchange *)

Section TwoParty.

Variable generateReply : BaseAgent -> list IMessage -> outcome BaseAgent IMessage.

Lemma send_requestReply_some self message recipient st r :
  send generateReply self message recipient true = Done st r ->
  exists reply, r = Some reply.
Proof.
  unfold send. simpl.
  destruct (generateReply _ _) as [rcv' reply|e rcv']; intros H; inversion H.
  now exists reply.
Qed.

(** Every run of the loop that returns extends the recorded sequence by at
    most [rounds] replies; a termination message can only be the last of
    them, and fewer than [rounds] replies means the last one terminates. *)
Lemma chat_loop_done rounds flipped current snd rcv acc st res :
  chat_loop generateReply rounds flipped current snd rcv acc = Done st res ->
  exists ext,
    res = acc ++ ext /\
    length ext <= rounds /\
    (forall k m, ext !! k = Some m -> isTerminationMessage m = true ->
                 S k = length ext) /\
    (length ext < rounds ->
     exists pre m, ext = pre ++ [m] /\ isTerminationMessage m = true).
Proof.
  revert flipped current snd rcv acc.
  induction rounds as [|r IH]; intros flipped current snd rcv acc H;
    cbn [chat_loop] in H.
  - injection H as _ <-. exists []. rewrite app_nil_r.
    split; [done|]. split; [simpl; lia|]. split; [|simpl; intros; lia].
    intros k m Hk. done.
  - destruct (send generateReply snd current rcv true) as [[snd' rcv'] o|e [snd' rcv']]
      eqn:Hs; [|discriminate].
    destruct o as [reply|].
    2:{ apply send_requestReply_some in Hs as [? ?]. discriminate. }
    destruct (isTerminationMessage reply) eqn:Ht.
    + injection H as _ <-. exists [reply]. repeat split; simpl.
      * lia.
      * intros k m Hk _. destruct k; [done|]. simpl in Hk. rewrite lookup_nil in Hk. done.
      * intros _. exists [], reply. done.
    + destruct (IH _ _ _ _ _ H) as [ext [-> [Hlen [Hterm Hlast]]]].
      exists (reply :: ext). rewrite <- app_assoc. repeat split; simpl.
      * lia.
      * intros [|k] m Hk Hm; simpl in Hk.
        -- injection Hk as <-. congruence.
        -- rewrite (Hterm k m Hk Hm). done.
      * intros Hlt. destruct (Hlast ltac:(lia)) as [pre [m [-> Hm]]].
        exists (reply :: pre), m. done.
Qed.

End TwoParty.

(** "should conduct a multi-round conversation" and "should respect max
    rounds limit": two rounds, two replies. *)
Example initiateChat_test_rounds :
  match initiateChat (mocks [("agent1", "Continue"); ("agent2", "Continue")])
          agent1 agent2 (StrMsg "Start") 2 with
  | Done _ res => map content res = ["Continue"; "Continue"]%string
  | Failed _ _ => False
  end.
Proof. vm_compute. reflexivity. Qed.

(** "should terminate on TERMINATE keyword". *)
Example initiateChat_test_terminate :
  match initiateChat (mocks [("agent2", "TERMINATE")])
          agent1 agent2 (StrMsg "Start") 10 with
  | Done _ res => map content res = ["TERMINATE"]%string
  | Failed _ _ => False
  end.
Proof. vm_compute. reflexivity. Qed.

(** C2: a two-party chat that returns records at most [maxRounds]
    messages, and exactly [maxRounds] when none of them is a termination
    message. *)
Theorem initiateChat_length generateReply self recipient initialMessage maxRounds st res :
  initiateChat generateReply self recipient initialMessage maxRounds = Done st res ->
  length res <= maxRounds /\
  ((forall m, In m res -> isTerminationMessage m = false) -> length res = maxRounds).
Proof.
  intros H. apply chat_loop_done in H as [ext [-> [Hlen [_ Hlast]]]].
  simpl. split; [exact Hlen|]. intros Hnone.
  destruct (Nat.lt_ge_cases (length ext) maxRounds) as [Hlt|Hge]; [|lia].
  destruct (Hlast Hlt) as [pre [m [-> Hm]]].
  rewrite (Hnone m) in Hm; [discriminate|]. apply in_or_app. right. now left.
Qed.

Lemma initiateChat_length_witness :
  exists st res,
    initiateChat (mocks [("agent1", "Continue"); ("agent2", "Continue")])
      agent1 agent2 (StrMsg "Start") 3 = Done st res /\
    length res <= 3 /\
    ((forall m, In m res -> isTerminationMessage m = false) -> length res = 3).
Proof.
  do 2 eexists. split; [vm_compute; reflexivity|].
  eapply (initiateChat_length (mocks [("agent1", "Continue"); ("agent2", "Continue")])
           agent1 agent2 (StrMsg "Start") 3).
  reflexivity.
Defined.

(** ** The group chat engine *)

Section Group.

Variable generateReply : BaseAgent -> list IMessage -> outcome BaseAgent IMessage.

Lemma isTerminationMessage_tag_name m n :
  isTerminationMessage (tag_name m n) = isTerminationMessage m.
Proof. reflexivity. Qed.

Lemma group_step_done g g' b :
  group_step generateReply g = Done g' b ->
  (agents g !! (currentRound g mod length (agents g)) = None /\ g' = g /\ b = true) \/
  (exists sp sp' r,
     agents g !! (currentRound g mod length (agents g)) = Some sp /\
     generateReply sp (messages g) = Done sp' r /\
     g' = set_round
            (set_messages
               (set_agents g (<[currentRound g mod length (agents g) := sp']> (agents g)))
               (messages g ++ [tag_name r (agent_name sp)]))
            (S (currentRound g)) /\
     b = isTerminationMessage r).
Proof.
  unfold group_step.
  destruct (agents g !! _) as [sp|] eqn:Hsp.
  - destruct (generateReply sp (messages g)) as [sp' r|e sp'] eqn:Hg; intros H;
      inversion H; subst. right. now exists sp, sp', r.
  - intros H. inversion H; subst. left. done.
Qed.

Lemma group_step_failed g e g' :
  group_step generateReply g = Failed e g' ->
  exists sp sp',
    agents g !! (currentRound g mod length (agents g)) = Some sp /\
    generateReply sp (messages g) = Failed e sp' /\
    messages g' = messages g /\
    agent_name <$> agents g' = <[currentRound g mod length (agents g) := agent_name sp']>
                                 (agent_name <$> agents g).
Proof.
  unfold group_step.
  destruct (agents g !! _) as [sp|] eqn:Hsp; [|discriminate].
  destruct (generateReply sp (messages g)) as [sp' r|e' sp'] eqn:Hg; intros H;
    inversion H; subst.
  exists sp, sp'. repeat split; [done|]. simpl. apply list_fmap_insert.
Qed.

(** The transcript only grows during the rounds; it grows by at most one
    reply per round, and a termination reply is the last one. *)
Lemma run_loop_done fuel g g' :
  run_loop generateReply fuel g = Done g' tt ->
  exists ext,
    messages g' = messages g ++ ext /\
    length ext <= fuel /\
    (forall k m, ext !! k = Some m -> isTerminationMessage m = true -> S k = length ext).
Proof.
  revert g; induction fuel as [|f IH]; intros g H; cbn [run_loop] in H.
  - injection H as <-. exists []. rewrite app_nil_r. split; [done|]. simpl.
    split; [lia|]. intros k m Hk. done.
  - destruct (currentRound g <? maxRound g).
    2:{ injection H as <-. exists []. rewrite app_nil_r. split; [done|]. simpl.
        split; [lia|]. intros k m Hk. done. }
    destruct (group_step generateReply g) as [g1 b|e g1] eqn:Hs; [|discriminate].
    apply group_step_done in Hs as [[_ [-> ->]]|[sp [sp' [r [_ [_ [-> ->]]]]]]].
    + injection H as <-. exists []. rewrite app_nil_r. split; [done|]. simpl.
      split; [lia|]. intros k m Hk. done.
    + destruct (isTerminationMessage r) eqn:Ht.
      * injection H as <-. exists [tag_name r (agent_name sp)].
        split; [done|]. simpl. split; [lia|].
        intros [|k] m Hk _; [done|]. simpl in Hk. rewrite lookup_nil in Hk. done.
      * destruct (IH _ H) as [ext [Hext [Hlen Hterm]]].
        exists (tag_name r (agent_name sp) :: ext). simpl in Hext.
        rewrite Hext, <- app_assoc. split; [done|]. simpl. split; [lia|].
        intros [|k] m Hk Hm; simpl in Hk.
        -- injection Hk as <-. rewrite isTerminationMessage_tag_name in Hm. congruence.
        -- rewrite (Hterm k m Hk Hm). done.
Qed.

End Group.

Lemma run_done generateReply g initialMessage g' res :
  run generateReply g initialMessage = Done g' res ->
  res = messages g' /\
  exists ext,
    messages g' = messages g ++ [msg user initialMessage (adminName g)] ++ ext /\
    length ext <= maxRound g /\
    (forall k m, ext !! k = Some m -> isTerminationMessage m = true -> S k = length ext).
Proof.
  unfold run.
  destruct (run_loop _ _ _) as [g1 []|e g1] eqn:Hl; intros H; inversion H; subst.
  split; [done|].
  destruct (run_loop_done _ _ _ _ Hl) as [ext [Hm [Hlen Ht]]].
  exists ext. simpl in Hm. rewrite Hm, <- app_assoc. done.
Qed.

Example newGroupChat_group3 :
  newGroupChat (mkGroupChatConfig [agent1; agent2; agent3] (Some 5) None) = Ok group3.
Proof. reflexivity. Qed.

(** "should rotate between agents": agent1, agent2, then agent3 whose
    TERMINATE ends the session. *)
Example run_test_rotate :
  match run (mocks rotate_replies) group3 "Start" with
  | Done _ res => map name res = [None; Some "agent1"; Some "agent2"; Some "agent3"]%string
  | Failed _ _ => False
  end.
Proof. vm_compute. reflexivity. Qed.

(** C3: in both loops, a produced termination message is the last message
    of the returned sequence: no turn follows it, whatever the round
    budget. *)
Theorem termination_stops_loops :
  (forall generateReply self recipient initialMessage maxRounds st res,
     initiateChat generateReply self recipient initialMessage maxRounds = Done st res ->
     forall k m, res !! k = Some m -> isTerminationMessage m = true ->
     S k = length res) /\
  (forall generateReply g initialMessage g' res,
     run generateReply g initialMessage = Done g' res ->
     forall k m, length (messages g) < k -> res !! k = Some m ->
     isTerminationMessage m = true -> S k = length res).
Proof.
  split.
  - intros gen self recipient initialMessage maxRounds st res H k m Hk Hm.
    apply chat_loop_done in H as [ext [-> [_ [Hterm _]]]].
    simpl in *. exact (Hterm k m Hk Hm).
  - intros gen g initialMessage g' res H k m Hlt Hk Hm.
    destruct (run_done _ _ _ _ _ H) as [-> [ext [Hmsgs [_ Hterm]]]].
    rewrite Hmsgs in Hk |- *. rewrite app_assoc in Hk |- *.
    rewrite length_app, length_app. simpl.
    rewrite lookup_app_r in Hk by (rewrite length_app; simpl; lia).
    rewrite length_app in Hk. simpl in Hk.
    specialize (Hterm _ _ Hk Hm). lia.
Qed.

Lemma termination_stops_loops_witness :
  (exists st res,
     initiateChat (mocks [("agent2", "TERMINATE")]) agent1 agent2 (StrMsg "Start") 10
       = Done st res /\ S 0 = length res) /\
  (exists g' res,
     run (mocks [("agent3", "TERMINATE")]) group3 "Start" = Done g' res /\
     S 3 = length res).
Proof.
  split.
  - do 2 eexists. split; [vm_compute; reflexivity|].
    eapply (proj1 termination_stops_loops (mocks [("agent2", "TERMINATE")])
              agent1 agent2 (StrMsg "Start") 10 _ _ eq_refl 0
              (msg assistant "TERMINATE" (Some "agent2"))).
    + vm_compute. reflexivity.
    + vm_compute. reflexivity.
  - do 2 eexists. split; [vm_compute; reflexivity|].
    eapply (proj2 termination_stops_loops (mocks [("agent3", "TERMINATE")])
              group3 "Start" _ _ eq_refl 3
              (msg assistant "TERMINATE" (Some "agent3"))).
    + vm_compute. lia.
    + vm_compute. reflexivity.
    + vm_compute. reflexivity.
Defined.

Section RoundRobin.

Variable generateReply : BaseAgent -> list IMessage -> outcome BaseAgent IMessage.

(** Replying does not rename an agent ([getName] returns the configured
    name). *)
Hypothesis generateReply_name : forall a ms a' r,
  generateReply a ms = Done a' r -> agent_name a' = agent_name a.

Lemma group_step_names g g' b :
  group_step generateReply g = Done g' b ->
  agent_name <$> agents g' = agent_name <$> agents g.
Proof.
  intros H. apply group_step_done in H as [[_ [-> _]]|[sp [sp' [r [Hsp [Hg [-> _]]]]]]];
    [done|].
  simpl. rewrite list_fmap_insert, (generateReply_name _ _ _ _ Hg).
  apply list_insert_id. rewrite list_lookup_fmap, Hsp. done.
Qed.

(** The reply recorded [j] places after the transcript of [g] comes from
    the participant at index [(currentRound g + j) mod N]. *)
Lemma run_loop_names fuel g g' :
  run_loop generateReply fuel g = Done g' tt ->
  forall j m, messages g' !! (length (messages g) + j) = Some m ->
  exists n, name m = Some n /\
    (agent_name <$> agents g) !! ((currentRound g + j) mod length (agents g)) = Some n.
Proof.
  revert g; induction fuel as [|f IH]; intros g H j m Hm; cbn [run_loop] in H.
  - injection H as <-. rewrite lookup_ge_None_2 in Hm by lia. done.
  - destruct (currentRound g <? maxRound g).
    2:{ injection H as <-. rewrite lookup_ge_None_2 in Hm by lia. done. }
    destruct (group_step generateReply g) as [g1 b|e g1] eqn:Hs; [|discriminate].
    pose proof (group_step_names _ _ _ Hs) as Hnames.
    apply group_step_done in Hs as [[_ [-> ->]]|[sp [sp' [r [Hsp [Hg [Hg1 ->]]]]]]].
    + injection H as <-. rewrite lookup_ge_None_2 in Hm by lia. done.
    + assert (Hr : forall g2, messages g2 = messages g1 ++ [] \/
                     (exists ext, messages g2 = messages g1 ++ ext) ->
                   j = 0 -> messages g2 !! (length (messages g) + j) = Some m ->
                   name m = Some (agent_name sp)).
      { intros g2 Hpre -> Hm2. rewrite Nat.add_0_r in Hm2.
        assert (Hpre' : exists ext, messages g2 = messages g1 ++ ext)
          by (destruct Hpre as [Hpre|Hpre]; [now exists []|exact Hpre]).
        destruct Hpre' as [ext Hext].
        rewrite Hext, Hg1 in Hm2. simpl in Hm2.
        rewrite <- app_assoc, lookup_app_r, Nat.sub_diag in Hm2 by lia.
        simpl in Hm2. injection Hm2 as <-. done. }
      destruct (isTerminationMessage r) eqn:Ht.
      * injection H as <-.
        destruct j as [|j].
        -- exists (agent_name sp).
           rewrite (Hr g1 (or_introl (eq_sym (app_nil_r _))) eq_refl Hm).
           rewrite list_lookup_fmap, Nat.add_0_r, Hsp. done.
        -- rewrite Hg1 in Hm. simpl in Hm.
           rewrite lookup_ge_None_2 in Hm; [done|]. rewrite length_app. simpl. lia.
      * destruct j as [|j].
        -- destruct (run_loop_done _ _ _ _ H) as [ext [Hext _]].
           exists (agent_name sp).
           rewrite (Hr g' (or_intror (ex_intro _ ext Hext)) eq_refl Hm).
           rewrite list_lookup_fmap, Nat.add_0_r, Hsp. done.
        -- assert (Hlen : length (messages g1) = S (length (messages g)))
             by (rewrite Hg1; simpl; rewrite length_app; simpl; lia).
           assert (Hm' : messages g' !! (length (messages g1) + j) = Some m)
             by (rewrite Hlen; rewrite <- Hm; f_equal; lia).
           destruct (IH g1 H j m Hm') as [n [Hn Hidx]]. rewrite Hnames in Hidx.
           exists n. split; [exact Hn|]. rewrite <- Hidx.
           assert (Hround : currentRound g1 = S (currentRound g)) by (rewrite Hg1; done).
           assert (HN : length (agents g1) = length (agents g)).
           { rewrite <- (length_fmap agent_name (agents g1)), Hnames, length_fmap. done. }
           rewrite Hround, HN. f_equal. f_equal. lia.
Qed.

End RoundRobin.

Lemma mocks_name replies : forall a ms a' r,
  mocks replies a ms = Done a' r -> agent_name a' = agent_name a.
Proof. intros a ms a' r H. unfold mocks, mock_generateReply in H. congruence. Qed.

(** C5: in a returned group session, the reply recorded in round [k]
    (position [k] after the seed message) is attributed to the name of
    [participants[(k-1) mod N]], and [k] is within the round budget. *)
Theorem run_round_robin generateReply
    (Hname : forall a ms a' r, generateReply a ms = Done a' r -> agent_name a' = agent_name a)
    g initialMessage g' res :
  run generateReply g initialMessage = Done g' res ->
  forall k m, 1 <= k -> res !! (length (messages g) + k) = Some m ->
  k <= maxRound g /\
  exists p, agents g !! ((k - 1) mod length (agents g)) = Some p /\
            name m = Some (agent_name p).
Proof.
  intros H k m Hk Hm.
  destruct (run_done _ _ _ _ _ H) as [-> [ext [Hmsgs [Hlen _]]]].
  split.
  - assert (Hlt : length (messages g) + k < length (messages g')) by
      (apply lookup_lt_is_Some_1; rewrite Hm; done).
    rewrite Hmsgs, !length_app in Hlt. simpl in Hlt. lia.
  - unfold run in H.
    destruct (run_loop _ _ _) as [g1 []|e g1] eqn:Hl; inversion H; subst g1.
    assert (Hm' : messages g' !! (length (messages (set_round (addMessage g
                    (msg user initialMessage (adminName g))) 0)) + (k - 1)) = Some m).
    { simpl. rewrite length_app. simpl. rewrite <- Hm. f_equal. lia. }
    destruct (run_loop_names generateReply Hname _ _ _ Hl (k - 1) m Hm') as [n [Hn Hidx]].
    simpl in Hidx. rewrite list_lookup_fmap in Hidx.
    destruct (agents g !! ((k - 1) mod length (agents g))) as [p|]; simpl in Hidx;
      [|discriminate].
    injection Hidx as <-. now exists p.
Qed.

Lemma run_round_robin_witness :
  exists g' res,
    run (mocks rotate_replies) group3 "Start" = Done g' res /\
    2 <= maxRound group3 /\
    exists p, agents group3 !! ((2 - 1) mod length (agents group3)) = Some p /\
              name (msg assistant "Reply from agent2" (Some "agent2")) = Some (agent_name p).
Proof.
  do 2 eexists. split; [vm_compute; reflexivity|].
  eapply (run_round_robin (mocks rotate_replies) (mocks_name rotate_replies)
            group3 "Start" _ _ eq_refl 2).
  - lia.
  - vm_compute. reflexivity.
Defined.

(** C4: construction fails with the configuration error exactly when fewer
    than 2 participants are given; with 2 or more it succeeds, with those
    participants, an empty transcript and the round budget (10 by
    default). *)
Theorem newGroupChat_spec (config : GroupChatConfig) :
  (length (cfg_agents config) < 2 ->
   newGroupChat config
   = Throw (JsError "ConfigurationError" "GroupChat requires at least 2 agents")) /\
  (2 <= length (cfg_agents config) ->
   exists g, newGroupChat config = Ok g /\ agents g = cfg_agents config /\
             messages g = [] /\ maxRound g = default 10 (cfg_maxRound config)).
Proof.
  unfold newGroupChat. split; intros H.
  - apply Nat.ltb_lt in H. rewrite H. done.
  - apply Nat.ltb_ge in H. rewrite H. eexists. done.
Qed.

(** ** Agents *)

(** C6: [clearHistory] always returns, with the history reduced to the
    configured system message alone, or to nothing without one; the
    name and the system prompt are kept. *)
Theorem clearHistory_spec (a : BaseAgent) :
  conversationHistory (clearHistory a) =
    match systemMessage a with
    | Some s => [msg system s None]
    | None => []
    end /\
  agent_name (clearHistory a) = agent_name a /\
  systemMessage (clearHistory a) = systemMessage a.
Proof. destruct a as [n [s|] h]; done. Qed.

Example clearHistory_test :
  conversationHistory
    (clearHistory (mkAgent "agent" (Some "System prompt")
       [msg system "System prompt" None; msg user "Hello" None]))
  = [msg system "System prompt" None].
Proof. reflexivity. Qed.

(** C8: [send] without [requestReply] appends the normalized message to the
    sender's history, leaves the recipient as it is and returns no reply,
    whatever the recipient's [generateReply] is (it is not called). *)
Theorem send_without_reply generateReply self message recipient :
  send generateReply self message recipient false
    = Done (addToHistory self (normalize message), recipient) None /\
  conversationHistory (addToHistory self (normalize message))
    = conversationHistory self ++ [normalize message] /\
  (forall generateReply', send generateReply' self message recipient false
                          = send generateReply self message recipient false).
Proof. repeat split. Qed.

(** ** Accessors *)

Module HeapFacts.
Import Heap.

Lemma copy_array_fresh (h h1 : heap) l l1 :
  copy_array h l = Some (h1, l1) ->
  exists xs, h !! l = Some xs /\ l1 <> l /\ h1 = <[l1 := xs]> h /\ h1 !! l1 = Some xs.
Proof.
  unfold copy_array. destruct (h !! l) as [xs|] eqn:Hl; [|discriminate].
  intros H. injection H as <- <-. exists xs. split; [done|]. split.
  - intros Heq. apply (is_fresh (dom h)). rewrite Heq. apply elem_of_dom. by exists xs.
  - split; [done|]. apply lookup_insert_eq.
Qed.

(** Mutating the copy leaves the internal array alone: copying it again
    gives the contents the first copy had. *)
Lemma copy_array_mutate (h h1 : heap) l l1 f :
  copy_array h l = Some (h1, l1) ->
  exists h2 l2, copy_array (mutate h1 l1 f) l = Some (h2, l2) /\ h2 !! l2 = h1 !! l1.
Proof.
  intros H. destruct (copy_array_fresh _ _ _ _ H) as [xs [Hl [Hne [-> Hl1]]]].
  unfold mutate. rewrite Hl1.
  unfold copy_array.
  rewrite lookup_insert_ne by congruence. rewrite lookup_insert_ne by congruence.
  rewrite Hl. do 2 eexists. split; [reflexivity|].
  by rewrite !lookup_insert_eq.
Qed.

End HeapFacts.

(** C7: after any mutation of the array returned by
    [getConversationHistory], [getMessages] or [getAgents], the next call
    of the same accessor returns an array with the contents the first one
    had. *)
Theorem accessors_defensive_copy :
  (forall h a h1 l1 f, Heap.getConversationHistory h a = Some (h1, l1) ->
     exists h2 l2, Heap.getConversationHistory (Heap.mutate h1 l1 f) a = Some (h2, l2) /\
                   h2 !! l2 = h1 !! l1) /\
  (forall h g h1 l1 f, Heap.getMessages h g = Some (h1, l1) ->
     exists h2 l2, Heap.getMessages (Heap.mutate h1 l1 f) g = Some (h2, l2) /\
                   h2 !! l2 = h1 !! l1) /\
  (forall h g h1 l1 f, Heap.getAgents h g = Some (h1, l1) ->
     exists h2 l2, Heap.getAgents (Heap.mutate h1 l1 f) g = Some (h2, l2) /\
                   h2 !! l2 = h1 !! l1).
Proof.
  split; [|split]; intros; eapply HeapFacts.copy_array_mutate; eassumption.
Qed.

(** ** [AssistantAgent] *)

(** C10: a successful [AssistantAgent.generateReply] returns the
    completion as an assistant message named after the agent and appends
    exactly that message to the agent's own history; when the group chat
    engine makes an assistant speak, the assistant stored in the session
    has that one reply added to its history, and the same reply is added
    to the transcript. *)
Theorem assistant_reply_recorded (llmProvider : provider) :
  (forall self ms self' reply,
     assistant_generateReply llmProvider self ms = Done self' reply ->
     exists c, llmProvider ms = Ok c /\
       reply = msg assistant c (Some (agent_name self)) /\
       self' = addToHistory self reply /\
       conversationHistory self' = conversationHistory self ++ [reply]) /\
  (forall generateReply g g' b sp,
     agents g !! (currentRound g mod length (agents g)) = Some sp ->
     (forall ms, generateReply sp ms = assistant_generateReply llmProvider sp ms) ->
     group_step generateReply g = Done g' b ->
     exists reply,
       agents g' !! (currentRound g mod length (agents g)) = Some (addToHistory sp reply) /\
       messages g' = messages g ++ [reply]).
Proof.
  assert (Hdone : forall self ms self' reply,
     assistant_generateReply llmProvider self ms = Done self' reply ->
     exists c, llmProvider ms = Ok c /\
       reply = msg assistant c (Some (agent_name self)) /\
       self' = addToHistory self reply /\
       conversationHistory self' = conversationHistory self ++ [reply]).
  { intros self ms self' reply. unfold assistant_generateReply.
    destruct (llmProvider ms) as [c|[n m|v]]; intros H; inversion H; subst.
    exists c. done. }
  split; [exact Hdone|].
  intros gen g g' b sp Hsp Hgen Hstep.
  apply group_step_done in Hstep as [[Hnone _]|[sp0 [sp' [r [Hsp0 [Hg [-> _]]]]]]];
    [congruence|].
  rewrite Hsp in Hsp0. injection Hsp0 as <-.
  rewrite Hgen in Hg. destruct (Hdone _ _ _ _ Hg) as [c [_ [-> [-> _]]]].
  exists (msg assistant c (Some (agent_name sp))). simpl. split.
  - apply list_lookup_insert_eq. eapply lookup_lt_Some. exact Hsp.
  - done.
Qed.

Lemma assistant_reply_recorded_witness :
  (exists self' reply,
     assistant_generateReply echo_provider agent1 [] = Done self' reply /\
     exists c, echo_provider [] = Ok c /\
       reply = msg assistant c (Some (agent_name agent1)) /\
       self' = addToHistory agent1 reply /\
       conversationHistory self' = conversationHistory agent1 ++ [reply]) /\
  (exists g' b,
     group_step (assistant_generateReply echo_provider) group3 = Done g' b /\
     exists reply,
       agents g' !! (currentRound group3 mod length (agents group3))
         = Some (addToHistory agent1 reply) /\
       messages g' = messages group3 ++ [reply]).
Proof.
  split.
  - do 2 eexists. split; [reflexivity|].
    eapply (proj1 (assistant_reply_recorded echo_provider) agent1 []). reflexivity.
  - do 2 eexists. split; [vm_compute; reflexivity|].
    eapply (proj2 (assistant_reply_recorded echo_provider)
              (assistant_generateReply echo_provider) group3 _ _ agent1).
    + vm_compute. reflexivity.
    + intros ms. reflexivity.
    + reflexivity.
Defined.

(** ** Failures *)

Section Failures.

Variable generateReply : BaseAgent -> list IMessage -> outcome BaseAgent IMessage.

Lemma send_failed self message recipient requestReply e st :
  send generateReply self message recipient requestReply = Failed e st ->
  requestReply = true /\
  exists recipient',
    generateReply recipient (conversationHistory recipient ++ [normalize message])
      = Failed e recipient' /\
    st = (addToHistory self (normalize message), recipient').
Proof.
  unfold send. destruct requestReply; [|discriminate].
  destruct (generateReply _ _) as [r' reply|e' r'] eqn:Hg; intros H; inversion H; subst.
  split; [done|]. now exists r'.
Qed.

Lemma run_loop_failed fuel g e g' :
  run_loop generateReply fuel g = Failed e g' ->
  messages g `prefix_of` messages g' /\
  exists sp sp', generateReply sp (messages g') = Failed e sp'.
Proof.
  revert g; induction fuel as [|f IH]; intros g H; cbn [run_loop] in H; [discriminate|].
  destruct (currentRound g <? maxRound g); [|discriminate].
  destruct (group_step generateReply g) as [g1 b|e1 g1] eqn:Hs.
  - pose proof Hs as Hs'.
    apply group_step_done in Hs as [[_ [-> ->]]|[sp [sp' [r [_ [_ [Hg1 ->]]]]]]];
      [discriminate|].
    destruct (isTerminationMessage r); [discriminate|].
    destruct (IH _ H) as [Hpre Hcall]. split; [|exact Hcall].
    etrans; [|exact Hpre]. rewrite Hg1. simpl. by apply prefix_app_r.
  - injection H as -> ->.
    destruct (group_step_failed _ _ _ _ Hs) as [sp [sp' [_ [Hg [Hm _]]]]].
    rewrite Hm. split; [done|]. now exists sp, sp'.
Qed.

Lemma chat_loop_failed rounds flipped current snd rcv acc e st :
  chat_loop generateReply rounds flipped current snd rcv acc = Failed e st ->
  exists a ms a', generateReply a ms = Failed e a'.
Proof.
  revert flipped current snd rcv acc.
  induction rounds as [|r IH]; intros flipped current snd rcv acc H;
    cbn [chat_loop] in H; [discriminate|].
  destruct (send generateReply snd current rcv true) as [[snd' rcv'] o|e' [snd' rcv']]
    eqn:Hs.
  - destruct o as [reply|]; [|discriminate].
    destruct (isTerminationMessage reply); [discriminate|]. exact (IH _ _ _ _ _ H).
  - injection H as -> _. apply send_failed in Hs as [_ [r' [Hg _]]]. eauto.
Qed.

Lemma orient_negb flipped a b : orient (negb flipped) b a = orient flipped a b.
Proof. by destruct flipped. Qed.

Lemma chat_continues_run c c' :
  rtc (chat_continues generateReply) c c' ->
  chat_run generateReply c = chat_run generateReply c'.
Proof.
  induction 1 as [c|c1 c2 c3 H12 _ IH]; [done|]. rewrite <- IH.
  destruct H12 as [r flipped current snd rcv acc snd' rcv' reply Hs Ht].
  unfold chat_run; cbn [chat_loop cs_rounds cs_flipped cs_current cs_snd cs_rcv cs_acc].
  rewrite Hs, Ht. reflexivity.
Qed.

(** [chat_loop] rejects exactly when the call of a round it reaches
    rejects, with that call's error. *)
Lemma chat_run_failed_iff c e st :
  chat_run generateReply c = Failed e st <->
  exists c', rtc (chat_continues generateReply) c c' /\ cs_rounds c' <> 0 /\
    exists rcv', generateReply (cs_rcv c')
                   (conversationHistory (cs_rcv c') ++ [normalize (cs_current c')])
                 = Failed e rcv' /\
      st = orient (cs_flipped c') (addToHistory (cs_snd c') (normalize (cs_current c'))) rcv'.
Proof.
  split.
  - destruct c as [rounds flipped current snd rcv acc].
    unfold chat_run; cbn [cs_rounds cs_flipped cs_current cs_snd cs_rcv cs_acc].
    revert flipped current snd rcv acc.
    induction rounds as [|r IH]; intros flipped current snd rcv acc H;
      cbn [chat_loop] in H; [discriminate|].
    destruct (send generateReply snd current rcv true) as [[snd' rcv'] o|e' [snd' rcv']]
      eqn:Hs.
    + destruct o as [reply|]; [|discriminate].
      destruct (isTerminationMessage reply) eqn:Ht; [discriminate|].
      destruct (IH _ _ _ _ _ H) as [c' [Hr Hrest]].
      exists c'. split; [|exact Hrest].
      eapply rtc_l; [|exact Hr]. by constructor.
    + injection H as <- <-. apply send_failed in Hs as [_ [r' [Hg [= -> ->]]]].
      exists (mkChatState (S r) flipped current snd rcv acc).
      split; [done|]. split; [done|]. simpl. eauto.
  - intros [c' [Hr [Hn [rcv' [Hg ->]]]]].
    rewrite (chat_continues_run _ _ Hr).
    destruct c' as [[|r] flipped current snd rcv acc];
      cbn [cs_rounds cs_flipped cs_current cs_snd cs_rcv cs_acc] in *; [done|].
    unfold chat_run; cbn [chat_loop cs_rounds cs_flipped cs_current cs_snd cs_rcv cs_acc].
    unfold send. cbn zeta iota beta. rewrite Hg. reflexivity.
Qed.

Lemma run_continues_run s s' :
  rtc (run_continues generateReply) s s' ->
  run_loop generateReply s.1 s.2 = run_loop generateReply s'.1 s'.2.
Proof.
  induction 1 as [s|s1 s2 s3 H12 _ IH]; [done|]. rewrite <- IH.
  destruct H12 as [f g g' Hlt Hs]. simpl. rewrite Hlt, Hs. reflexivity.
Qed.

(** [run_loop] rejects exactly when the speaker's call in an iteration it
    reaches rejects, with that call's error. *)
Lemma run_loop_failed_iff fuel g e g' :
  run_loop generateReply fuel g = Failed e g' <->
  exists f g1, rtc (run_continues generateReply) (fuel, g) (S f, g1) /\
    currentRound g1 < maxRound g1 /\
    exists speaker speaker',
      agents g1 !! (currentRound g1 mod length (agents g1)) = Some speaker /\
      generateReply speaker (messages g1) = Failed e speaker' /\
      g' = set_agents g1 (<[currentRound g1 mod length (agents g1) := speaker']> (agents g1)).
Proof.
  split.
  - revert g; induction fuel as [|f IH]; intros g H; cbn [run_loop] in H; [discriminate|].
    destruct (currentRound g <? maxRound g) eqn:Hlt; [|discriminate].
    destruct (group_step generateReply g) as [g1 b|e1 g1] eqn:Hs.
    + destruct b; [discriminate|].
      destruct (IH _ H) as [f' [g2 [Hr Hrest]]].
      exists f', g2. split; [|exact Hrest].
      eapply rtc_l; [|exact Hr]. by constructor.
    + injection H as <- <-. exists f, g. split; [done|].
      split; [by apply Nat.ltb_lt|].
      unfold group_step in Hs.
      destruct (agents g !! _) as [speaker|]; [|discriminate].
      destruct (generateReply speaker (messages g)) as [sp' r|e2 sp'] eqn:Hg;
        [discriminate|].
      injection Hs as <- <-. eauto.
  - intros [f [g1 [Hr [Hlt [speaker [speaker' [Hi [Hg ->]]]]]]]].
    pose proof (run_continues_run _ _ Hr) as E. simpl in E. rewrite E.
    cbn [run_loop]. apply Nat.ltb_lt in Hlt. rewrite Hlt.
    unfold group_step. rewrite Hi, Hg. reflexivity.
Qed.

(** Reply generation only ever appends to the replying agent's history. *)
Hypothesis generateReply_done_appends : forall a ms a' r,
  generateReply a ms = Done a' r ->
  conversationHistory a `prefix_of` conversationHistory a'.
Hypothesis generateReply_failed_appends : forall a ms e a',
  generateReply a ms = Failed e a' ->
  conversationHistory a `prefix_of` conversationHistory a'.

Lemma chat_loop_failed_histories rounds flipped current snd rcv acc e st :
  chat_loop generateReply rounds flipped current snd rcv acc = Failed e st ->
  conversationHistory (orient flipped snd rcv).1 `prefix_of` conversationHistory st.1 /\
  conversationHistory (orient flipped snd rcv).2 `prefix_of` conversationHistory st.2.
Proof.
  revert flipped current snd rcv acc.
  induction rounds as [|r IH]; intros flipped current snd rcv acc H;
    cbn [chat_loop] in H; [discriminate|].
  destruct (send generateReply snd current rcv true) as [[snd' rcv'] o|e' [snd' rcv']]
    eqn:Hs.
  - destruct o as [reply|]; [|discriminate].
    destruct (isTerminationMessage reply); [discriminate|].
    destruct (IH _ _ _ _ _ H) as [H1 H2]. rewrite orient_negb in H1, H2.
    unfold send in Hs. simpl in Hs.
    destruct (generateReply rcv _) as [r' rep|e1 r'] eqn:Hg; [|discriminate].
    injection Hs as <- <- <-.
    apply generateReply_done_appends in Hg.
    assert (Hsnd : conversationHistory snd `prefix_of`
                   conversationHistory (addToHistory (addToHistory snd (normalize current)) rep)).
    { simpl. rewrite <- app_assoc. by apply prefix_app_r. }
    destruct flipped; simpl in *; split; etrans; eauto.
  - injection H as <- <-. apply send_failed in Hs as [_ [r' [Hg [= -> ->]]]].
    apply generateReply_failed_appends in Hg.
    assert (Hsnd : conversationHistory snd `prefix_of`
                   conversationHistory (addToHistory snd (normalize current)))
      by (simpl; by apply prefix_app_r).
    destruct flipped; simpl; split; done.
Qed.

End Failures.

Lemma assistant_done_appends llmProvider : forall a ms a' r,
  assistant_generateReply llmProvider a ms = Done a' r ->
  conversationHistory a `prefix_of` conversationHistory a'.
Proof.
  intros a ms a' r. unfold assistant_generateReply.
  destruct (llmProvider ms) as [c|[n m|v]]; intros H; inversion H; subst.
  simpl. by apply prefix_app_r.
Qed.

Lemma assistant_failed_appends llmProvider : forall a ms e a',
  assistant_generateReply llmProvider a ms = Failed e a' ->
  conversationHistory a `prefix_of` conversationHistory a'.
Proof.
  intros a ms e a'. unfold assistant_generateReply.
  destruct (llmProvider ms) as [c|[n m|v]]; intros H; inversion H; subst; done.
Qed.

(** C9 (as stated, refuted): a cancelled request ("AbortError") and a
    network failure ("TypeError") with the same message make
    [AssistantAgent.generateReply] reject with the very same plain [Error]:
    the error is not typed and does not carry its cause; and a thrown
    value that is not an [Error] is not wrapped at all. *)
Lemma assistant_error_not_typed :
  aborted_provider [] <> network_provider [] /\
  assistant_generateReply aborted_provider agent1 []
    = Failed (JsError "Error" "Failed to generate reply: aborted") agent1 /\
  assistant_generateReply network_provider agent1 []
    = Failed (JsError "Error" "Failed to generate reply: aborted") agent1 /\
  assistant_generateReply string_provider agent1 [] = Failed (NonError "boom") agent1.
Proof. repeat split; [discriminate]. Qed.

(** C9 (amended): [AssistantAgent.generateReply] turns a provider failure
    into a plain [Error] whose message is "Failed to generate reply: "
    followed by the cause's message (a thrown value that is not an
    [Error] is rethrown as it is), leaving the agent unchanged.  [send],
    [initiateChat] and the group chat's [run] reject exactly when a
    [generateReply] call they reach rejects, with that call's error and
    right after it: the failure is neither swallowed nor replaced by a
    default reply, and the call is not retried.  They keep the messages
    recorded before it: the sent message in the sender's history, the
    seed and the earlier replies in the transcript. *)
Theorem reply_failure_propagates :
  (forall (llmProvider : provider) self ms,
     (forall n m, llmProvider ms = Throw (JsError n m) ->
        assistant_generateReply llmProvider self ms
        = Failed (JsError "Error" ("Failed to generate reply: " ++ m)%string) self) /\
     (forall v, llmProvider ms = Throw (NonError v) ->
        assistant_generateReply llmProvider self ms = Failed (NonError v) self)) /\
  (forall generateReply self message recipient e st,
     send generateReply self message recipient true = Failed e st <->
     exists recipient',
       generateReply recipient (conversationHistory recipient ++ [normalize message])
         = Failed e recipient' /\
       st = (addToHistory self (normalize message), recipient')) /\
  (forall generateReply self recipient message maxRounds e st,
     initiateChat generateReply self recipient message maxRounds = Failed e st <->
     exists c, rtc (chat_continues generateReply)
                   (mkChatState maxRounds false message self recipient []) c /\
       cs_rounds c <> 0 /\
       exists rcv', generateReply (cs_rcv c)
                      (conversationHistory (cs_rcv c) ++ [normalize (cs_current c)])
                    = Failed e rcv' /\
         st = orient (cs_flipped c) (addToHistory (cs_snd c) (normalize (cs_current c))) rcv') /\
  (forall generateReply,
     (forall a ms a' r, generateReply a ms = Done a' r ->
        conversationHistory a `prefix_of` conversationHistory a') ->
     (forall a ms e a', generateReply a ms = Failed e a' ->
        conversationHistory a `prefix_of` conversationHistory a') ->
     forall self recipient message maxRounds e st,
     initiateChat generateReply self recipient message maxRounds = Failed e st ->
     (conversationHistory self ++ [normalize message]) `prefix_of` conversationHistory st.1 /\
     conversationHistory recipient `prefix_of` conversationHistory st.2) /\
  (forall generateReply g initialMessage e g',
     run generateReply g initialMessage = Failed e g' <->
     exists f g1,
       rtc (run_continues generateReply)
           (maxRound g, set_round (addMessage g (msg user initialMessage (adminName g))) 0)
           (S f, g1) /\
       currentRound g1 < maxRound g1 /\
       exists speaker speaker',
         agents g1 !! (currentRound g1 mod length (agents g1)) = Some speaker /\
         generateReply speaker (messages g1) = Failed e speaker' /\
         g' = set_agents g1 (<[currentRound g1 mod length (agents g1) := speaker']> (agents g1))) /\
  (forall generateReply g initialMessage e g',
     run generateReply g initialMessage = Failed e g' ->
     (messages g ++ [msg user initialMessage (adminName g)]) `prefix_of` messages g').
Proof.
  split; [|split; [|split; [|split; [|split]]]].
  - intros p self ms. unfold assistant_generateReply.
    split; intros * H; rewrite H; done.
  - intros gen self message recipient e st. split.
    + intros H. apply send_failed in H as [_ H]. exact H.
    + intros [r' [Hg ->]]. unfold send. cbn zeta iota beta. rewrite Hg. reflexivity.
  - intros gen self recipient message maxRounds e st.
    exact (chat_run_failed_iff gen (mkChatState maxRounds false message self recipient []) e st).
  - intros gen Hdone Hfailed self recipient message maxRounds e st H.
    unfold initiateChat in H. destruct maxRounds as [|r]; cbn [chat_loop] in H;
      [discriminate|].
    destruct (send gen self message recipient true) as [[snd' rcv'] o|e' [snd' rcv']]
      eqn:Hs.
    + destruct o as [reply|]; [|discriminate].
      destruct (isTerminationMessage reply); [discriminate|].
      destruct (chat_loop_failed_histories gen Hdone Hfailed _ _ _ _ _ _ _ _ H) as [H1 H2].
      simpl in H1, H2.
      unfold send in Hs. simpl in Hs.
      destruct (gen recipient _) as [r' rep|e1 r'] eqn:Hg; [|discriminate].
      injection Hs as <- <- <-.
      apply Hdone in Hg.
      split; [|etrans; eauto].
      etrans; [|exact H1]. simpl. by apply prefix_app_r.
    + injection H as <- <-. apply send_failed in Hs as [_ [r' [Hg [= -> ->]]]].
      apply Hfailed in Hg. simpl. done.
  - intros gen g initialMessage e g'. unfold run.
    destruct (run_loop _ _ _) as [g1 u|e1 g1] eqn:Hl.
    + split; [discriminate|]. intros Hex.
      apply (run_loop_failed_iff gen) in Hex. congruence.
    + rewrite <- (run_loop_failed_iff gen), Hl.
      split; intros H; injection H as -> ->; reflexivity.
  - intros gen g initialMessage e g' H. unfold run in H.
    destruct (run_loop _ _ _) as [g1 u|e1 g1] eqn:Hl; [discriminate|].
    injection H as <- <-.
    destruct (run_loop_failed _ _ _ _ _ Hl) as [Hpre _]. exact Hpre.
Qed.

Lemma reply_failure_propagates_witness :
  initiateChat (assistant_generateReply aborted_provider) agent1 agent2 (StrMsg "Start") 3
    = Failed (JsError "Error" "Failed to generate reply: aborted")
             (addToHistory agent1 (normalize (StrMsg "Start")), agent2) /\
  exists g',
    run (assistant_generateReply aborted_provider) group3 "Start"
      = Failed (JsError "Error" "Failed to generate reply: aborted") g'.
Proof.
  split.
  - apply (proj2 (proj1 (proj2 (proj2 reply_failure_propagates))
                    (assistant_generateReply aborted_provider) agent1 agent2
                    (StrMsg "Start") 3 _ _)).
    exists (mkChatState 3 false (StrMsg "Start") agent1 agent2 []).
    split; [apply rtc_refl|]. split; [done|].
    exists agent2. split; [vm_compute; reflexivity|reflexivity].
  - eexists.
    apply (proj2 (proj1 (proj2 (proj2 (proj2 (proj2 reply_failure_propagates))))
                    (assistant_generateReply aborted_provider) group3 "Start" _ _)).
    eexists _, _. split; [apply rtc_refl|]. split; [simpl; lia|].
    eexists _, _. split; [reflexivity|]. split; [vm_compute; reflexivity|reflexivity].
Defined.

(* ================================================================== *)
(** * Providers and [AssistantAgent] *)

Module ProviderFacts.
Import LLM Assistant.

Lemma str_or_nonempty x d : d <> ""%string -> str_or x d <> ""%string.
Proof.
  destruct x as [s|]; simpl; [|done].
  destruct (String.eqb_spec s ""); done.
Qed.

Lemma str_or_falsy x d : str_falsy x = true -> str_or x d = d.
Proof. destruct x as [s|]; simpl; [intros ->|]; done. Qed.

Lemma truthy_num_or x d : truthy d = true -> truthy (num_or x d) = true.
Proof.
  destruct x as [n|]; simpl; [|done].
  destruct (truthy n) eqn:Hn; done.
Qed.

Lemma num_or_truthy n d : truthy n = true -> num_or (Some n) d = n.
Proof. simpl. intros ->. done. Qed.

Lemma getDefaultModel_nonempty t : getDefaultModel t <> ""%string.
Proof.
  unfold getDefaultModel.
  destruct (String.eqb t "openai"); [discriminate|].
  destruct (String.eqb t "openrouter"); [discriminate|].
  destruct (String.eqb t "ollama"); discriminate.
Qed.

(** What a successful construction builds. *)
Lemma newAssistantAgent_ok cfg a :
  newAssistantAgent cfg = Ok a ->
  let providerType := str_or (cfg_provider cfg) "openai" in
  let mdl := str_or (cfg_model cfg) (getDefaultModel providerType) in
  let temp := num_nullish (cfg_temperature cfg) (JNum 0) in
  let maxT := num_or (cfg_maxTokens cfg) (JNum 1000) in
  base a = newAgent (cfg_name cfg) (cfg_systemMessage cfg) /\
  agent_model a = mdl /\ agent_temperature a = temp /\ agent_maxTokens a = maxT /\
  config (llmProvider a) = mkConfig mdl (Some temp) (Some maxT) (cfg_apiKey cfg) (cfg_baseURL cfg).
Proof.
  unfold newAssistantAgent, createProvider.
  set (t := str_or (cfg_provider cfg) "openai").
  destruct (String.eqb t "openai").
  { unfold newOpenAIProvider. simpl. destruct (str_falsy _); [discriminate|].
    intros H. injection H as <-. done. }
  destruct (String.eqb t "openrouter").
  { unfold newOpenRouterProvider. simpl. destruct (str_falsy _); [discriminate|].
    intros H. injection H as <-. done. }
  destruct (String.eqb t "ollama"); [|discriminate].
  intros H. injection H as <-. done.
Qed.

End ProviderFacts.

Module Extras.
Import LLM Assistant ProviderFacts.

(** X1: with the "openai" provider (also chosen when [provider] is
    missing or empty) or the "openrouter" provider, construction throws
    the provider's "API key is required" error exactly when [apiKey] is
    missing or empty; otherwise it succeeds and the agent reports that
    provider's name. *)
Theorem assistant_api_key_required (cfg : AssistantAgentConfig) :
  (str_or (cfg_provider cfg) "openai" = "openai"%string ->
     (str_falsy (cfg_apiKey cfg) = true ->
        newAssistantAgent cfg = Throw (JsError "Error" "OpenAI API key is required")) /\
     (str_falsy (cfg_apiKey cfg) = false ->
        exists a, newAssistantAgent cfg = Ok a /\ Assistant.getProviderName a = "OpenAI"%string)) /\
  (str_or (cfg_provider cfg) "openai" = "openrouter"%string ->
     (str_falsy (cfg_apiKey cfg) = true ->
        newAssistantAgent cfg = Throw (JsError "Error" "OpenRouter API key is required")) /\
     (str_falsy (cfg_apiKey cfg) = false ->
        exists a, newAssistantAgent cfg = Ok a /\
                  Assistant.getProviderName a = "OpenRouter"%string)).
Proof.
  unfold newAssistantAgent, createProvider.
  split; intros Ht; rewrite Ht; cbn -[str_falsy newOpenAIProvider newOpenRouterProvider];
    [unfold newOpenAIProvider|unfold newOpenRouterProvider]; cbn [apiKey];
    split; intros Hk; rewrite Hk; [done|eexists; done|done|eexists; done].
Qed.

Lemma assistant_api_key_required_witness :
  newAssistantAgent (mkAssistantConfig "assistant" None None (Some "") None None None None)
    = Throw (JsError "Error" "OpenAI API key is required") /\
  exists a, newAssistantAgent (mkAssistantConfig "assistant" None (Some "openrouter")
                                 (Some "sk-or") None None None None) = Ok a /\
            Assistant.getProviderName a = "OpenRouter"%string.
Proof.
  split.
  - apply (proj1 (proj1 (assistant_api_key_required
             (mkAssistantConfig "assistant" None None (Some "") None None None None))
             eq_refl)). reflexivity.
  - apply (proj2 (proj2 (assistant_api_key_required
             (mkAssistantConfig "assistant" None (Some "openrouter") (Some "sk-or")
                None None None None)) eq_refl)). reflexivity.
Defined.

(** X2: with the "ollama" provider construction never fails, whatever the
    key: the client uses the given key or "ollama" when it is missing or
    empty, the given base URL or "http://localhost:11434/v1", and the
    model defaults to "llama2". *)
Theorem assistant_ollama_never_fails (cfg : AssistantAgentConfig) :
  str_or (cfg_provider cfg) "openai" = "ollama"%string ->
  exists a, newAssistantAgent cfg = Ok a /\
    Assistant.getProviderName a = "Ollama"%string /\
    client_apiKey (client (llmProvider a)) = str_or (cfg_apiKey cfg) "ollama" /\
    client_baseURL (client (llmProvider a))
      = Some (str_or (cfg_baseURL cfg) "http://localhost:11434/v1") /\
    agent_model a = str_or (cfg_model cfg) "llama2".
Proof.
  intros Ht. unfold newAssistantAgent, createProvider. rewrite Ht. simpl.
  eexists. done.
Qed.

Lemma assistant_ollama_never_fails_witness :
  exists a, newAssistantAgent (mkAssistantConfig "local_agent" None (Some "ollama")
                                 None None None None None) = Ok a /\
    Assistant.getProviderName a = "Ollama"%string /\
    client_apiKey (client (llmProvider a)) = str_or None "ollama" /\
    client_baseURL (client (llmProvider a))
      = Some (str_or None "http://localhost:11434/v1") /\
    agent_model a = str_or None "llama2".
Proof.
  apply (assistant_ollama_never_fails
           (mkAssistantConfig "local_agent" None (Some "ollama") None None None None None)).
  reflexivity.
Defined.

(** X3: a provider name other than the three known ones (a value outside
    [LLMProviderType] given at run time) makes construction throw
    "Unsupported provider: <name>". *)
Theorem assistant_unsupported_provider (cfg : AssistantAgentConfig) (t : string) :
  str_or (cfg_provider cfg) "openai" = t ->
  t <> "openai"%string -> t <> "openrouter"%string -> t <> "ollama"%string ->
  newAssistantAgent cfg = Throw (JsError "Error" ("Unsupported provider: " ++ t)%string).
Proof.
  intros Ht H1 H2 H3. unfold newAssistantAgent, createProvider. rewrite Ht.
  apply String.eqb_neq in H1, H2, H3. rewrite H1, H2, H3. done.
Qed.

Lemma assistant_unsupported_provider_witness :
  newAssistantAgent (mkAssistantConfig "a" None (Some "gemini") (Some "k") None None None None)
    = Throw (JsError "Error" "Unsupported provider: gemini").
Proof.
  apply (assistant_unsupported_provider
           (mkAssistantConfig "a" None (Some "gemini") (Some "k") None None None None)
           "gemini"); [reflexivity|discriminate..].
Defined.

(** X4: every constructed [AssistantAgent] has a non-empty model and a
    truthy token limit: a token limit of 0 or NaN becomes 1000 ([||]), while
    a temperature is kept as given, 0 included, and is 0 only when missing
    ([??]); the history starts as the base agent's. *)
Theorem assistant_constructed_defaults (cfg : AssistantAgentConfig) a :
  newAssistantAgent cfg = Ok a ->
  agent_model a <> ""%string /\
  truthy (agent_maxTokens a) = true /\
  (forall n, cfg_maxTokens cfg = Some n -> truthy n = false ->
             agent_maxTokens a = JNum 1000) /\
  (cfg_temperature cfg = None -> agent_temperature a = JNum 0) /\
  (forall n, cfg_temperature cfg = Some n -> agent_temperature a = n) /\
  conversationHistory (base a) = initialHistory (cfg_systemMessage cfg).
Proof.
  intros H. destruct (newAssistantAgent_ok _ _ H) as [Hb [Hm [Ht [Hx _]]]].
  rewrite Hm, Ht, Hx, Hb. split; [|split; [|split; [|split; [|split]]]].
  - apply str_or_nonempty, getDefaultModel_nonempty.
  - apply truthy_num_or. reflexivity.
  - intros n -> Hn. simpl. rewrite Hn. done.
  - intros ->. done.
  - intros n ->. done.
  - done.
Qed.

Lemma assistant_constructed_defaults_witness :
  exists a, newAssistantAgent (mkAssistantConfig "local_agent" None (Some "ollama") None None
                                 (Some (JNum 0)) (Some (JNum 0)) None) = Ok a /\
  agent_model a <> ""%string /\
  truthy (agent_maxTokens a) = true /\
  (forall n, Some (JNum 0) = Some n -> truthy n = false -> agent_maxTokens a = JNum 1000) /\
  (Some (JNum 0) = None -> agent_temperature a = JNum 0) /\
  (forall n, Some (JNum 0) = Some n -> agent_temperature a = n) /\
  conversationHistory (base a) = initialHistory None.
Proof.
  eexists. split; [reflexivity|].
  apply (assistant_constructed_defaults
           (mkAssistantConfig "local_agent" None (Some "ollama") None None
              (Some (JNum 0)) (Some (JNum 0)) None)).
  reflexivity.
Defined.

(** X5: the request carries one entry per message, in order, with the
    message's role and content; the name is sent exactly when it is a
    non-empty string, and then unchanged. *)
Theorem buildRequest_messages (p : LLMProvider) (ms : list IMessage) :
  length (req_messages (buildRequest p ms)) = length ms /\
  forall i m, ms !! i = Some m ->
    exists w, req_messages (buildRequest p ms) !! i = Some w /\
      w_role w = role_of m /\ w_content w = content m /\
      (w_name w = None <-> str_falsy (name m) = true) /\
      (str_falsy (name m) = false -> w_name w = name m).
Proof.
  simpl. split; [apply length_map|].
  intros i m Hi. exists (toWire m). rewrite list_lookup_fmap, Hi.
  split; [done|]. unfold toWire; simpl. split; [done|]. split; [done|].
  destruct (str_falsy (name m)) eqn:Hf; simpl.
  - split; [done|discriminate].
  - split; [|done]. split; [|discriminate]. intros Hn.
    rewrite Hn in Hf. discriminate.
Qed.

(** X6: an OpenAI or OpenRouter request always carries a truthy
    [max_tokens]: the configured one when truthy, 1000 when it is
    missing, 0 or NaN; an Ollama request carries [max_tokens] only when
    the configured limit is truthy, and then that limit.  The temperature sent is the configured
    one, 0 when it is missing. *)
Theorem buildRequest_limits (p : LLMProvider) (ms : list IMessage) :
  (kind p <> OllamaKind ->
     exists n, req_max_tokens (buildRequest p ms) = Some n /\ truthy n = true /\
       (forall m, maxTokens (config p) = Some m -> truthy m = true -> n = m) /\
       (forall m, maxTokens (config p) = Some m -> truthy m = false -> n = JNum 1000) /\
       (maxTokens (config p) = None -> n = JNum 1000)) /\
  (kind p = OllamaKind ->
     (req_max_tokens (buildRequest p ms) = None <->
        forall m, maxTokens (config p) = Some m -> truthy m = false) /\
     (forall n, req_max_tokens (buildRequest p ms) = Some n -> maxTokens (config p) = Some n)) /\
  (temperature (config p) = None -> req_temperature (buildRequest p ms) = JNum 0) /\
  (forall t, temperature (config p) = Some t -> req_temperature (buildRequest p ms) = t).
Proof.
  unfold buildRequest. simpl. split; [|split; [|split]].
  - intros Hk. exists (num_or (maxTokens (config p)) (JNum 1000)).
    destruct (kind p); [| |done]; (split; [done|]);
      (split; [apply truthy_num_or; reflexivity|]);
      (split; [intros m -> Hm; simpl; rewrite Hm; done|]);
      (split; [intros m -> Hm; simpl; rewrite Hm; done|intros ->; done]).
  - intros ->. destruct (maxTokens (config p)) as [n|]; simpl.
    + destruct (truthy n) eqn:Hn; split.
      * split; [discriminate|]. intros H. rewrite (H n eq_refl) in Hn. discriminate.
      * intros n' [= <-]. done.
      * split; [|done]. intros _ m [= <-]. done.
      * done.
    + split; [done|]. done.
  - intros ->. done.
  - intros t ->. done.
Qed.

(** X7: a request built by a constructed [AssistantAgent]'s provider
    carries the agent's model, temperature and token limit, whichever the
    provider: the agent's own defaulting makes Ollama requests always
    carry [max_tokens]. *)
Theorem assistant_request_fields (cfg : AssistantAgentConfig) a (ms : list IMessage) :
  newAssistantAgent cfg = Ok a ->
  req_model (buildRequest (llmProvider a) ms) = agent_model a /\
  req_temperature (buildRequest (llmProvider a) ms) = agent_temperature a /\
  req_max_tokens (buildRequest (llmProvider a) ms) = Some (agent_maxTokens a).
Proof.
  intros H. destruct (newAssistantAgent_ok _ _ H) as [_ [Hm [Ht [Hx Hc]]]].
  assert (Htr : truthy (agent_maxTokens a) = true)
    by (rewrite Hx; apply truthy_num_or; reflexivity).
  unfold buildRequest. rewrite Hc. simpl. rewrite Hm, Ht.
  split; [done|]. split; [done|].
  rewrite <- Hx, Htr. destruct (kind _); done.
Qed.

Lemma assistant_request_fields_witness :
  exists a, newAssistantAgent (mkAssistantConfig "local_agent" None (Some "ollama") None
                                 (Some "llama2") None None None) = Ok a /\
  req_model (buildRequest (llmProvider a) []) = agent_model a /\
  req_temperature (buildRequest (llmProvider a) []) = agent_temperature a /\
  req_max_tokens (buildRequest (llmProvider a) []) = Some (agent_maxTokens a).
Proof.
  eexists. split; [reflexivity|].
  apply (assistant_request_fields
           (mkAssistantConfig "local_agent" None (Some "ollama") None (Some "llama2")
              None None None)).
  reflexivity.
Defined.

(** X8: [AssistantAgent.generateReply] end to end.  The request built
    from the messages goes to the provider's client; a response becomes an
    assistant message named after the agent, appended to its history, the
    provider and settings unchanged, and a response without a first
    choice, message or content gives the empty reply rather than an error.
    An [Error] from the client leaves the agent as it was and rejects with
    ["Failed to generate reply: " + message]; any other thrown value is
    rethrown unchanged. *)
Theorem assistant_reply_end_to_end create (a : AssistantAgent) (ms : list IMessage) :
  (forall r, create (client (llmProvider a)) (buildRequest (llmProvider a) ms) = Ok r ->
     Assistant.generateReply create a ms =
       Done (mkAssistant (addToHistory (base a) (msg assistant (firstContent r)
                                                     (Some (agent_name (base a)))))
               (llmProvider a) (agent_model a) (agent_temperature a) (agent_maxTokens a))
            (msg assistant (firstContent r) (Some (agent_name (base a))))) /\
  (forall r, create (client (llmProvider a)) (buildRequest (llmProvider a) ms) = Ok r ->
     (forall s rest, r <> Some (Some s) :: rest) ->
     exists a', Assistant.generateReply create a ms =
                Done a' (msg assistant "" (Some (agent_name (base a))))) /\
  (forall n m, create (client (llmProvider a)) (buildRequest (llmProvider a) ms)
                 = Throw (JsError n m) ->
     Assistant.generateReply create a ms =
       Failed (JsError "Error" ("Failed to generate reply: " ++ m)%string) a) /\
  (forall v, create (client (llmProvider a)) (buildRequest (llmProvider a) ms)
               = Throw (NonError v) ->
     Assistant.generateReply create a ms = Failed (NonError v) a).
Proof.
  unfold Assistant.generateReply, assistant_generateReply, generateCompletion.
  split; [|split; [|split]].
  - intros r ->. reflexivity.
  - intros r -> Hr. eexists. f_equal. f_equal.
    destruct r as [|[[c|]|] rest]; [done| |done|done].
    exfalso. by apply (Hr c rest).
  - intros n m ->. destruct a; reflexivity.
  - intros v ->. destruct a; reflexivity.
Qed.

(** X9: [updateConfig] composes as the spread of its arguments: updating
    with [x] then with [y] is updating once with [{ ...x, ...y }], and
    updating twice with the same keys is updating once. *)
Theorem updateConfig_spread (p : LLMProvider) (x y : PartialConfig) :
  updateConfig (updateConfig p x) y = updateConfig p (spread x y) /\
  updateConfig (updateConfig p x) x = updateConfig p x.
Proof.
  destruct p as [k [m t mt ak bu] c], x as [x1 x2 x3 x4 x5], y as [y1 y2 y3 y4 y5].
  unfold updateConfig, merge, spread, override; cbn.
  split; f_equal; f_equal;
    repeat match goal with
           | |- context [match ?o with Some _ => _ | None => _ end] => destruct o
           end; reflexivity.
Qed.

(** X10: [updateConfig] stores the new keys in [config] (a new model is
    used by the next requests), but keeps the provider's class and the
    client built by its constructor: a new [apiKey] or [baseURL] given to
    [updateConfig] never reaches the client the requests are sent with. *)
Theorem updateConfig_keeps_client (p : LLMProvider) (pc : PartialConfig) (ms : list IMessage) :
  kind (updateConfig p pc) = kind p /\
  client (updateConfig p pc) = client p /\
  LLM.getProviderName (updateConfig p pc) = LLM.getProviderName p /\
  (forall k, p_apiKey pc = Some k -> apiKey (config (updateConfig p pc)) = k) /\
  (forall u, p_baseURL pc = Some u -> baseURL (config (updateConfig p pc)) = u) /\
  (forall m, p_model pc = Some m -> req_model (buildRequest (updateConfig p pc) ms) = m) /\
  (forall create, generateCompletion create (updateConfig p pc) ms =
     match create (client p) (buildRequest (updateConfig p pc) ms) with
     | Ok r => Ok (firstContent r)
     | Throw e => Throw e
     end).
Proof.
  split; [done|]. split; [done|]. split; [done|].
  split; [intros k Hk; simpl; rewrite Hk; done|].
  split; [intros u Hu; simpl; rewrite Hu; done|].
  split; [intros m Hm; simpl; rewrite Hm; done|].
  intros create. done.
Qed.

(** X11: [setModel] changes only the model of the next requests and
    [setTemperature] only their temperature, 0 included; the other request
    fields, the client, the provider's name and the agent's history stay
    as they were. *)
Theorem setters_effect (a : AssistantAgent) (m : string) (t : jsnum) (ms : list IMessage) :
  buildRequest (llmProvider (setModel a m)) ms =
    mkRequest m (req_messages (buildRequest (llmProvider a) ms))
      (req_temperature (buildRequest (llmProvider a) ms))
      (req_max_tokens (buildRequest (llmProvider a) ms)) /\
  buildRequest (llmProvider (setTemperature a t)) ms =
    mkRequest (req_model (buildRequest (llmProvider a) ms))
      (req_messages (buildRequest (llmProvider a) ms)) t
      (req_max_tokens (buildRequest (llmProvider a) ms)) /\
  agent_model (setModel a m) = m /\ agent_temperature (setTemperature a t) = t /\
  client (llmProvider (setModel a m)) = client (llmProvider a) /\
  client (llmProvider (setTemperature a t)) = client (llmProvider a) /\
  Assistant.getProviderName (setModel a m) = Assistant.getProviderName a /\
  Assistant.getProviderName (setTemperature a t) = Assistant.getProviderName a /\
  base (setModel a m) = base a /\ base (setTemperature a t) = base a.
Proof. done. Qed.

(** X12: [setModel] and [setTemperature] keep an agent's [model],
    [temperature] and [maxTokens] fields in step with what its requests
    carry; with X7 (construction establishes it), this holds for every
    agent built and then updated through its setters. *)
Theorem setters_keep_sync (a : AssistantAgent) :
  (forall ms, req_model (buildRequest (llmProvider a) ms) = agent_model a /\
              req_temperature (buildRequest (llmProvider a) ms) = agent_temperature a /\
              req_max_tokens (buildRequest (llmProvider a) ms) = Some (agent_maxTokens a)) ->
  forall m t ms,
    (req_model (buildRequest (llmProvider (setModel a m)) ms) = agent_model (setModel a m) /\
     req_temperature (buildRequest (llmProvider (setModel a m)) ms)
       = agent_temperature (setModel a m) /\
     req_max_tokens (buildRequest (llmProvider (setModel a m)) ms)
       = Some (agent_maxTokens (setModel a m))) /\
    (req_model (buildRequest (llmProvider (setTemperature a t)) ms)
       = agent_model (setTemperature a t) /\
     req_temperature (buildRequest (llmProvider (setTemperature a t)) ms)
       = agent_temperature (setTemperature a t) /\
     req_max_tokens (buildRequest (llmProvider (setTemperature a t)) ms)
       = Some (agent_maxTokens (setTemperature a t))).
Proof.
  intros H m t ms. destruct (H ms) as [Hm [Ht Hx]]. revert Hm Ht Hx.
  unfold setModel, setTemperature, buildRequest, updateConfig, merge, override. cbn.
  intros Hm Ht Hx. auto.
Qed.

Lemma setters_keep_sync_witness :
  exists a, newAssistantAgent (mkAssistantConfig "local_agent" None (Some "ollama") None
                                 None None None None) = Ok a /\
  (req_model (buildRequest (llmProvider (setModel a "mistral")) [])
     = agent_model (setModel a "mistral") /\
   req_temperature (buildRequest (llmProvider (setModel a "mistral")) [])
     = agent_temperature (setModel a "mistral") /\
   req_max_tokens (buildRequest (llmProvider (setModel a "mistral")) [])
     = Some (agent_maxTokens (setModel a "mistral"))) /\
  (req_model (buildRequest (llmProvider (setTemperature a (JNum 0))) [])
     = agent_model (setTemperature a (JNum 0)) /\
   req_temperature (buildRequest (llmProvider (setTemperature a (JNum 0))) [])
     = agent_temperature (setTemperature a (JNum 0)) /\
   req_max_tokens (buildRequest (llmProvider (setTemperature a (JNum 0))) [])
     = Some (agent_maxTokens (setTemperature a (JNum 0)))).
Proof.
  eexists. split; [reflexivity|].
  apply setters_keep_sync. intros ms. simpl. done.
Defined.

Lemma str_or_truthy x d : str_falsy x = false -> Some (str_or x d) = x.
Proof. destruct x as [s|]; simpl; [intros ->|]; done. Qed.

(** X13: the client each provider's constructor builds.  The client always
    gets a non-empty API key.  [OpenAIProvider] passes only the key: a
    configured [baseURL] is ignored.  [OpenRouterProvider] and
    [OllamaProvider] use the configured [baseURL] when it is a non-empty
    string and their own endpoint otherwise; only OpenRouter sends extra
    headers, and Ollama uses the key ["ollama"] when none is given. *)
Theorem provider_clients (c : LLMProviderConfig) :
  (forall p, newOpenAIProvider c = Ok p ->
     kind p = OpenAIKind /\ config p = c /\
     apiKey c = Some (client_apiKey (client p)) /\ client_apiKey (client p) <> ""%string /\
     client_baseURL (client p) = None /\ client_defaultHeaders (client p) = []) /\
  (forall p, newOpenRouterProvider c = Ok p ->
     kind p = OpenRouterKind /\ config p = c /\
     apiKey c = Some (client_apiKey (client p)) /\ client_apiKey (client p) <> ""%string /\
     (str_falsy (baseURL c) = true ->
        client_baseURL (client p) = Some "https://openrouter.ai/api/v1"%string) /\
     (str_falsy (baseURL c) = false -> client_baseURL (client p) = baseURL c) /\
     client_defaultHeaders (client p) <> []) /\
  (client_apiKey (client (newOllamaProvider c)) <> ""%string /\
   (str_falsy (apiKey c) = true -> client_apiKey (client (newOllamaProvider c)) = "ollama"%string) /\
   (str_falsy (apiKey c) = false -> Some (client_apiKey (client (newOllamaProvider c))) = apiKey c) /\
   (str_falsy (baseURL c) = true ->
      client_baseURL (client (newOllamaProvider c)) = Some "http://localhost:11434/v1"%string) /\
   (str_falsy (baseURL c) = false -> client_baseURL (client (newOllamaProvider c)) = baseURL c) /\
   client_defaultHeaders (client (newOllamaProvider c)) = []).
Proof.
  assert (Hkey : str_falsy (apiKey c) = false ->
                 apiKey c = Some (default "" (apiKey c)) /\ default "" (apiKey c) <> ""%string).
  { destruct (apiKey c) as [k|]; simpl; [|discriminate].
    destruct (String.eqb_spec k ""); [discriminate|]. done. }
  split; [|split].
  - unfold newOpenAIProvider. destruct (str_falsy (apiKey c)) eqn:Hf; [discriminate|].
    intros p [= <-]. simpl. destruct (Hkey eq_refl). done.
  - unfold newOpenRouterProvider. destruct (str_falsy (apiKey c)) eqn:Hf; [discriminate|].
    intros p [= <-]. simpl. destruct (Hkey eq_refl).
    split; [done|]. split; [done|]. split; [done|]. split; [done|].
    split; [intros Hb; rewrite str_or_falsy; done|].
    split; [apply str_or_truthy|done].
  - unfold newOllamaProvider. simpl.
    split; [apply str_or_nonempty; done|].
    split; [apply str_or_falsy|]. split; [apply str_or_truthy|].
    split; [intros Hb; rewrite str_or_falsy; done|].
    split; [apply str_or_truthy|done].
Qed.

End Extras.
